(** * Lorgnette: documents, languages, pattern finders and regex templates

    A shallow embedding of the pattern-matching and templating core of the
    Lorgnette code base (TypeScript), with the properties its specification
    states about it.

    Conventions.
    - JavaScript numbers that hold rows and columns are integers and are
      modelled as [Z]; offsets into a text are [nat].
    - JavaScript strings are [string]; [===] on strings is [String.eqb].
    - A JavaScript [Map] is a [gmap]; the insertion order a [Map] remembers is
      not modelled (no property below depends on it).
    - [Map] objects are mutated while they are shared, so they live in a
      store and are named by locations; an object used as a [Map] key is
      named by its identity.
    - [null] and [undefined] results are [None]. *)

From Stdlib Require Import ZArith List Bool Lia Sorted.
From stdpp Require Import gmap strings list fin_maps.
Import ListNotations.

Set Warnings "-register-all".

(* ===================================================================== *)
(** * Definitions *)
(* ===================================================================== *)

(** ** Positions (core/documents/Position) *)

Module Position.

(** Modelled from the spec: the class [Position] (core/documents/Position.ts)
    is not among the sources. The specification describes it as
    a zero-based (row, column) pair whose equality and ordering are
    structural; the ordering is document order: rows first, then columns. *)
Record Position : Type := mkPosition { row : Z; column : Z }.

(** Modelled from the spec: equality of positions is structural. *)
Definition isEqualTo (p q : Position) : bool :=
  (row p =? row q)%Z && (column p =? column q)%Z.

(** Modelled from the spec: the strict document order, rows first. *)
Definition isBefore (p q : Position) : bool :=
  (row p <? row q)%Z || ((row p =? row q)%Z && (column p <? column q)%Z).

(** Modelled from the spec: document order on positions ([start ≤ end] of
    a range), as a proposition. *)
Definition le (p q : Position) : Prop :=
  (row p < row q)%Z \/ (row p = row q /\ (column p <= column q)%Z).

End Position.

Abbreviation Position := Position.Position.

(** ** Ranges (core/documents/Range.ts) *)

Module Range.

Record Range : Type := mkRange { start : Position; end_ : Position }.

(** [isEmpty(): boolean { return this.start.isEqualTo(this.end); }] *)
Definition isEmpty (r : Range) : bool :=
  Position.isEqualTo (start r) (end_ r).

(** [static fromSinglePosition(position) { return new Range(position, position); }] *)
Definition fromSinglePosition (position : Position) : Range :=
  mkRange position position.

(** Modelled from the spec: [Range.fromUnsortedPositions] is called by
    [convertMonacoSelection] (the code editor) but the version of [Range]
    among the sources does not define it. The specification says of
    it only that it is the variant offered for user-selection input and
    that it must sort its two positions. *)
Definition fromUnsortedPositions (position1 position2 : Position) : Range :=
  if Position.isBefore position2 position1
  then mkRange position2 position1
  else mkRange position1 position2.

Section PositionOperations.

(** [Position.relativeTo] and [Position.getOffsetToPositionConverterForText]
    are not among the sources. *)
Variable positionRelativeTo : Position -> Position -> Position.
Variable getOffsetToPositionConverterForText : string -> nat -> Position.

Definition relativeTo (r : Range) (origin : Position) : Range :=
  mkRange (positionRelativeTo (start r) origin)
          (positionRelativeTo (end_ r) origin).

Definition fromOffsetsInText (text : string) (startOffset endOffset : nat) : Range :=
  let convertOffsetToPosition := getOffsetToPositionConverterForText text in
  mkRange (convertOffsetToPosition startOffset)
          (convertOffsetToPosition endOffset).

End PositionOperations.

End Range.

Abbreviation Range := Range.Range.

(** ** Syntax trees (core/languages/SyntaxTree, SyntaxTreeNode) *)

Module SyntaxTree.

(** Modelled from the spec: the node classes of the sources
    ([ExponentNode], [MultiplicationNode], [NamedAccessNode], ...) extend
    per-language base classes that are not available. The matching code is
    written against the common surface only: a type tag, a range and the
    ordered child nodes. *)
Inductive SyntaxTreeNode : Type :=
  mkNode (type : string) (range : Range) (childNodes : list SyntaxTreeNode).

Definition type (n : SyntaxTreeNode) : string :=
  match n with mkNode t _ _ => t end.

Definition range (n : SyntaxTreeNode) : Range :=
  match n with mkNode _ r _ => r end.

Definition childNodes (n : SyntaxTreeNode) : list SyntaxTreeNode :=
  match n with mkNode _ _ c => c end.

Record SyntaxTree : Type := mkSyntaxTree { root : SyntaxTreeNode }.

(** The node classes of the sources, as nodes of the common shape. Each
    class fixes its type tag and lists its operands as child nodes, in source
    order ([get childNodes() { return [this.leftOperand, this.rightOperand]; }]).
    The reference to the parser's own node is kept for provenance only and is
    left out. *)
Definition ExponentNode (leftOperand rightOperand : SyntaxTreeNode) (range : Range)
  : SyntaxTreeNode :=
  mkNode "Exponent" range [leftOperand; rightOperand].

Definition MultiplicationNode (leftOperand rightOperand : SyntaxTreeNode) (range : Range)
  : SyntaxTreeNode :=
  mkNode "Multiplication" range [leftOperand; rightOperand].

Definition NamedAccessNode (expression identifier : SyntaxTreeNode) (range : Range)
  : SyntaxTreeNode :=
  mkNode "NamedAccess" range [expression; identifier].

(** Pre-order (source order) listing of a node and all its descendants. *)
Fixpoint preorder (n : SyntaxTreeNode) : list SyntaxTreeNode :=
  match n with
  | mkNode _ _ children => n :: flat_map preorder children
  end.

(** The node reached from [n] by following child indices. *)
Fixpoint nodeAt (n : SyntaxTreeNode) (path : list nat) : option SyntaxTreeNode :=
  match path with
  | [] => Some n
  | i :: path' =>
      match nth_error (childNodes n) i with
      | Some child => nodeAt child path'
      | None => None
      end
  end.

(** Induction on nodes, with the property available for every child. *)
Section Induction.

Variable P : SyntaxTreeNode -> Prop.
Hypothesis node_case :
  forall type range children, Forall P children -> P (mkNode type range children).

Fixpoint SyntaxTreeNode_children_ind (n : SyntaxTreeNode) : P n :=
  match n with
  | mkNode type range children =>
      node_case type range children
        ((fix all (l : list SyntaxTreeNode) : Forall P l :=
            match l with
            | [] => @List.Forall_nil _ P
            | child :: l' => @List.Forall_cons _ P child l' (SyntaxTreeNode_children_ind child) (all l')
            end) children)
  end.

End Induction.

End SyntaxTree.

Abbreviation SyntaxTreeNode := SyntaxTree.SyntaxTreeNode.

(** ** Languages (core/languages/Language.ts) *)

Module Language.

(** [Parser] (core/languages/Parser.ts) is an interface with one method,
    [parse(text: string): SyntaxTree]. *)
Record Parser : Type := mkParser { parse : string -> SyntaxTree.SyntaxTree }.

Record Language : Type := mkLanguage {
  name : string;
  id : string;
  codeEditorLanguageId : string;
  parser : option Parser
}.

Section SupportedLanguages.

(** The language constants of the modules css/language, json/language,
    math/language, typescript/language and plain-text/language, and the
    class [PythonParser], are not among the sources. *)
Variables TYPESCRIPT_LANGUAGE MATHEMATICS_LANGUAGE JSON_LANGUAGE
          CSS_LANGUAGE PLAIN_TEXT_LANGUAGE : Language.
Variable PythonParser : Parser.

(** core/languages/python/language.ts *)
Definition PYTHON_LANGUAGE : Language :=
  {| name := "Python (subset)";
     id := "python";
     codeEditorLanguageId := "python";
     parser := Some PythonParser |}.

Definition SUPPORTED_LANGUAGES : list Language :=
  [ TYPESCRIPT_LANGUAGE;
    MATHEMATICS_LANGUAGE;
    JSON_LANGUAGE;
    CSS_LANGUAGE;
    PYTHON_LANGUAGE;
    PLAIN_TEXT_LANGUAGE ].

(** [return SUPPORTED_LANGUAGES.find(language => language.id === id) ?? null;] *)
Definition getLanguageWithId (id' : string) : option Language :=
  find (fun language => String.eqb (id language) id') SUPPORTED_LANGUAGES.

End SupportedLanguages.

End Language.

Abbreviation Language := Language.Language.

(** ** Documents (core/documents/Document) *)

Module Document.

(** Modelled from the spec: the class [Document] is not part of the
    available sources. It is built from a language and a content
    ([new Document(language, content)]), owns both, and exposes an emptiness
    test, which holds when the content is the empty string. *)
Record Document : Type := mkDocument { language : Language; content : string }.

(** Modelled from the spec: the emptiness test of a document. *)
Definition isEmpty (document : Document) : bool :=
  (String.length (content document) =? 0)%nat.

End Document.

Abbreviation Document := Document.Document.

(** ** The code editor's selection conversion (code editor component) *)

Module CodeEditor.

(** The fields of a Monaco selection that the conversion reads. *)
Record MonacoSelection : Type := mkMonacoSelection {
  startLineNumber : Z;
  startColumn : Z;
  endLineNumber : Z;
  endColumn : Z
}.

Section Conversion.

(** [Document.getPositionAtLineAndColumn] is not part of the available
    sources. *)
Variable getPositionAtLineAndColumn : Document -> Z -> Z -> Position.

Definition convertMonacoSelection (selection : MonacoSelection) (document : Document) : Range :=
  let startLine := (startLineNumber selection - 1)%Z in
  let startColumn := (startColumn selection - 1)%Z in
  let startPosition := getPositionAtLineAndColumn document startLine startColumn in
  let endLine := (endLineNumber selection - 1)%Z in
  let endColumn := (endColumn selection - 1)%Z in
  let endPosition := getPositionAtLineAndColumn document endLine endColumn in
  Range.fromUnsortedPositions startPosition endPosition.

End Conversion.

End CodeEditor.

(** ** The structural pattern finder
       (core/languages/SyntaxTreePattern, core/fragments/syntactic/TreePatternFinder) *)

Module TreePatternFinder.

(** Modelled from the spec: [SyntaxTreePattern], [SKIP_MATCH_DESCENDANTS]
    and [TreePatternFinder] are used by the Vega marks provider
    ([new TreePatternFinder(new SyntaxTreePattern(predicate,
    SKIP_MATCH_DESCENDANTS))]) but their definitions are not among the
    sources. The specification gives the contract: a predicate on nodes and a
    descent-control decision; the tree is walked in pre-order from the root,
    every visited node for which the predicate holds yields one fragment, and
    [skipDescendants] prevents the walk from entering the subtree of a
    match, while [continueIntoDescendants] still visits the children of
    matched nodes. *)
Variant SearchType : Type :=
  | continueIntoDescendants
  | skipDescendants.

(** Modelled from the spec: the constant that the Vega marks provider
    passes to ask for [skipDescendants]. *)
Definition SKIP_MATCH_DESCENDANTS : SearchType := skipDescendants.

(** Modelled from the spec: a pattern is a predicate on nodes and a
    descent-control decision ([new SyntaxTreePattern(predicate, searchType)]). *)
Record SyntaxTreePattern : Type := mkSyntaxTreePattern {
  matches : SyntaxTreeNode -> bool;
  searchType : SearchType
}.

(** Modelled from the spec: the pre-order walk that collects the matches. *)
Fixpoint findMatchingNodes (pattern : SyntaxTreePattern) (node : SyntaxTreeNode)
  : list SyntaxTreeNode :=
  match node with
  | SyntaxTree.mkNode _ _ children =>
      if matches pattern node then
        match searchType pattern with
        | skipDescendants => [node]
        | continueIntoDescendants =>
            node :: flat_map (findMatchingNodes pattern) children
        end
      else flat_map (findMatchingNodes pattern) children
  end.

(** Modelled from the spec: a structural fragment is the matched range
    together with the matched node. *)
Record SyntacticFragment : Type := mkSyntacticFragment {
  range : Range;
  node : SyntaxTreeNode
}.

Definition fragmentOfNode (n : SyntaxTreeNode) : SyntacticFragment :=
  {| range := SyntaxTree.range n; node := n |}.

(** Modelled from the spec: one fragment per match, in the order of the walk. *)
Definition applyInTree (pattern : SyntaxTreePattern) (tree : SyntaxTree.SyntaxTree)
  : list SyntacticFragment :=
  map fragmentOfNode (findMatchingNodes pattern (SyntaxTree.root tree)).

End TreePatternFinder.

(** ** Sample trees for the structural pattern finder *)

Module SampleTrees.

(** A range on the first row, between two columns. *)
Definition span (from to : Z) : Range :=
  Range.mkRange (Position.mkPosition 0 from) (Position.mkPosition 0 to).

(** The type test of the Vega marks pattern ([n.type === "Property"]). *)
Definition isProperty (n : SyntaxTreeNode) : bool :=
  String.eqb (SyntaxTree.type n) "Property".

Definition innerProperty : SyntaxTreeNode :=
  SyntaxTree.mkNode "Property" (span 10 23) [].

Definition outerProperty : SyntaxTreeNode :=
  SyntaxTree.mkNode "Property" (span 1 24)
    [SyntaxTree.mkNode "Object" (span 9 24) [innerProperty]].

Definition siblingProperty : SyntaxTreeNode :=
  SyntaxTree.mkNode "Property" (span 26 36) [].

(** An object with one property, which holds an object with one property. *)
Definition nestedProperties : SyntaxTree.SyntaxTree :=
  SyntaxTree.mkSyntaxTree (SyntaxTree.mkNode "Object" (span 0 25) [outerProperty]).

(** The same object with a second property beside the first. *)
Definition nestedAndSiblingProperties : SyntaxTree.SyntaxTree :=
  SyntaxTree.mkSyntaxTree
    (SyntaxTree.mkNode "Object" (span 0 37) [outerProperty; siblingProperty]).

(** The expression [2 ^ (3 ^ 4)] of the mathematics language: an exponent
    whose right operand is an exponent. *)
Definition isExponent (n : SyntaxTreeNode) : bool :=
  String.eqb (SyntaxTree.type n) "Exponent".

Definition innerExponent : SyntaxTreeNode :=
  SyntaxTree.ExponentNode
    (SyntaxTree.mkNode "Number" (span 5 6) [])
    (SyntaxTree.mkNode "Number" (span 9 10) [])
    (span 5 10).

Definition outerExponent : SyntaxTreeNode :=
  SyntaxTree.ExponentNode
    (SyntaxTree.mkNode "Number" (span 0 1) [])
    innerExponent
    (span 0 11).

End SampleTrees.

(** ** The regular-expression matcher (utilities/RegexMatcher) *)

Module RegexMatcher.

(** Modelled from the spec: the class [RegexMatcher] is not among the
    sources; the textual pattern finder calls its [matchAll]. The
    specification asks for every non-overlapping match of the pattern, left to
    right, and for the scan position to always advance past a zero-width
    match. The regular-expression engine itself is a parameter: [exec text
    lastIndex] is the leftmost match of the pattern in [text] that starts at
    or after [lastIndex], as the pair of its start and end offsets. *)
Record OffsetMatch : Type := mkOffsetMatch { startOffset : nat; endOffset : nat }.

Section MatchAll.

Variable exec : string -> nat -> option OffsetMatch.

(** Modelled from the spec: the scan position after a match is its end,
    or one further when the match is zero-width. *)
Definition nextIndex (m : OffsetMatch) : nat :=
  if (endOffset m =? startOffset m)%nat then (endOffset m + 1)%nat else endOffset m.

(** Modelled from the spec: the scan loop. It stops when the scan
    position is past the end of the text or when the engine finds no further
    match. [fuel] is the number of iterations the loop may still run; the
    result is [None] when they are used up before the scan is over. *)
Fixpoint scanFrom (fuel : nat) (text : string) (lastIndex : nat)
  : option (list OffsetMatch) :=
  match fuel with
  | O => None
  | S fuel' =>
      if (String.length text <? lastIndex)%nat then Some []
      else
        match exec text lastIndex with
        | None => Some []
        | Some m =>
            match scanFrom fuel' text (nextIndex m) with
            | Some rest => Some (m :: rest)
            | None => None
            end
        end
  end.

(** Modelled from the spec: all the matches in a text, scanned from its
    start. The scan position grows at every iteration and the loop stops once
    it is past the end, so two iterations more than the text has characters
    are enough (see [scanFrom_returns]). *)
Definition matchAll (text : string) : option (list OffsetMatch) :=
  scanFrom (String.length text + 2) text 0.

End MatchAll.

(** An engine reports matches that lie in the text, at or after the scan
    position it was given. *)
Definition engineReportsFrom (exec : string -> nat -> option OffsetMatch) : Prop :=
  forall text lastIndex m,
    exec text lastIndex = Some m ->
    (lastIndex <= startOffset m /\ startOffset m <= endOffset m
     /\ endOffset m <= String.length text)%nat.

(** The engine of the empty pattern: a zero-width match wherever it is asked. *)
Definition emptyPatternEngine (text : string) (lastIndex : nat) : option OffsetMatch :=
  if (lastIndex <=? String.length text)%nat
  then Some (mkOffsetMatch lastIndex lastIndex)
  else None.

End RegexMatcher.

(** ** The textual pattern finder (core/fragments/textual/RegexPatternFinder) *)

Module RegexPatternFinder.

(** The matcher object of a finder; it holds the pattern. *)
Record RegexMatcher : Type := mkRegexMatcher { pattern : string }.

Record RegexPatternFinder : Type := mkRegexPatternFinder {
  regexMatcher : RegexMatcher
}.

(** [constructor(pattern: string) { this.regexMatcher = new RegexMatcher(pattern); }] *)
Definition new (pattern : string) : RegexPatternFinder :=
  {| regexMatcher := mkRegexMatcher pattern |}.

(** Computations that may invoke the regular-expression matcher. The trace
    records, in order, the text of every invocation of [matchAll]. *)
Definition Matching (A : Type) : Type := list string -> A * list string.

Definition ret {A : Type} (a : A) : Matching A := fun trace => (a, trace).

Definition bind {A B : Type} (c : Matching A) (k : A -> Matching B) : Matching B :=
  fun trace => let '(a, trace') := c trace in k a trace'.

Section ApplyInDocument.

(** [RegexMatcher.matchAll], the type of its matches and
    [TextualPattern.fromRegexMatch] are not among the sources. *)
Variables RegexMatch TextualPattern : Type.
Variable matchAll : RegexMatcher -> string -> list RegexMatch.
Variable fromRegexMatch : RegexMatch -> Document -> TextualPattern.

(** The call [this.regexMatcher.matchAll(text)]. *)
Definition invokeMatchAll (matcher : RegexMatcher) (text : string)
  : Matching (list RegexMatch) :=
  fun trace => (matchAll matcher text, trace ++ [text]).

Definition applyInDocument (this : RegexPatternFinder) (document : Document)
  : Matching (list TextualPattern) :=
  (* If the document is empty, there is nothing to do. *)
  if Document.isEmpty document then ret []
  else
    bind (invokeMatchAll (regexMatcher this) (Document.content document))
         (fun found => ret (map (fun match_ => fromRegexMatch match_ document) found)).

End ApplyInDocument.

End RegexPatternFinder.

(** ** Regex matches, textual fragments and slots *)

Module RegexGroup.

(** A named group of a match, as [RegexPatternTemplate] reads it
    ([group.name], [group.value], [group.range]). *)
Record RegexGroup : Type := mkRegexGroup {
  name : string;
  value : string;
  range : Range
}.

End RegexGroup.

Module RegexMatch.

(** A match of the pattern; [groups] holds the named groups that took part
    in the match. *)
Record RegexMatch : Type := mkRegexMatch {
  value : string;
  range : Range;
  groups : list RegexGroup.RegexGroup
}.

End RegexMatch.

Module TextualFragment.

(** Modelled from the spec: the class [TextualFragment] is not among the
    sources. A fragment is a handle on the matched text and its range. It is
    an object, and a JavaScript [Map] compares object keys by reference:
    [identity] names the object. *)
Record TextualFragment : Type := mkTextualFragment {
  identity : nat;
  text : string;
  range : Range
}.

End TextualFragment.

Abbreviation TextualFragment := TextualFragment.TextualFragment.

Module TextualTemplateSlot.

(** [new TextualTemplateSlot(text, range, document, key, valuatorProvider)] *)
Record TextualTemplateSlot (TemplateSlotValuatorProvider : Type) : Type :=
  mkTextualTemplateSlot {
    text : string;
    range : Range;
    document : Document;
    key : string;
    valuatorProvider : TemplateSlotValuatorProvider
  }.

Arguments mkTextualTemplateSlot {_} _ _ _ _ _.
Arguments text {_} _.
Arguments range {_} _.
Arguments document {_} _.
Arguments key {_} _.
Arguments valuatorProvider {_} _.

End TextualTemplateSlot.

Abbreviation TextualTemplateSlot := TextualTemplateSlot.TextualTemplateSlot.

(** ** The regex template (core/templates/textual/RegexPatternTemplate.ts) *)

Module RegexPatternTemplate.

Abbreviation TemplateSlotKey := string.

(** Locations of [Map] objects in the store. *)
Abbreviation loc := positive.

(** An element of the array that
    [RegexPatternFinder.provideFragmentsWithMatchesForDocument] returns. *)
Record FragmentWithMatch : Type := mkFragmentWithMatch {
  fragment : TextualFragment;
  match_ : RegexMatch.RegexMatch
}.

Section Template.

(** [TemplateSlotValuatorProvider] (core/templates/TemplateSlotValuator) is
    not among the sources; the template only stores its values. *)
Variable TemplateSlotValuatorProvider : Type.

(** The version of [RegexPatternFinder] that the template calls, with its
    method [provideFragmentsWithMatchesForDocument], is not among the
    sources (the one at hand only has [applyInDocument]). *)
Variable provideFragmentsWithMatchesForDocument :
  RegexPatternFinder.RegexPatternFinder -> Document -> list FragmentWithMatch.

(** The store: the [Map] objects from fragments to slot maps, whose values
    are references to slot maps, and the slot [Map] objects. *)
Record Store : Type := mkStore {
  fragmentMaps : gmap loc (gmap nat loc);
  slotMaps : gmap loc (gmap TemplateSlotKey (TextualTemplateSlot TemplateSlotValuatorProvider))
}.

(** The entries of the [Map] a reference names. The references that the
    method below follows always name an object of the store (the field of
    the template, and the slot maps it has just created); a location that the
    store does not hold reads as an empty [Map]. *)
Definition fragmentMapAt (store : Store) (l : loc) : gmap nat loc :=
  default ∅ (fragmentMaps store !! l).

Definition slotMapAt (store : Store) (l : loc)
  : gmap TemplateSlotKey (TextualTemplateSlot TemplateSlotValuatorProvider) :=
  default ∅ (slotMaps store !! l).

(** [map.clear()] on a fragment map *)
Definition fragmentMapClear (l : loc) (store : Store) : Store :=
  {| fragmentMaps := <[l := ∅]> (fragmentMaps store);
     slotMaps := slotMaps store |}.

(** [map.set(fragment, keysToSlots)] on a fragment map; the key is the
    fragment object, the value a reference to a slot map. *)
Definition fragmentMapSet (l : loc) (fragment : TextualFragment) (keysToSlots : loc)
    (store : Store) : Store :=
  {| fragmentMaps :=
       <[l := <[TextualFragment.identity fragment := keysToSlots]> (fragmentMapAt store l)]>
         (fragmentMaps store);
     slotMaps := slotMaps store |}.

(** [new Map()] for a slot map: a fresh object, empty. *)
Definition newSlotMap (store : Store) : loc * Store :=
  let l := fresh (dom (slotMaps store)) in
  (l, {| fragmentMaps := fragmentMaps store;
         slotMaps := <[l := ∅]> (slotMaps store) |}).

(** [map.set(slotKey, slot)] on a slot map *)
Definition slotMapSet (l : loc) (slotKey : TemplateSlotKey)
    (slot : TextualTemplateSlot TemplateSlotValuatorProvider) (store : Store) : Store :=
  {| fragmentMaps := fragmentMaps store;
     slotMaps := <[l := <[slotKey := slot]> (slotMapAt store l)]> (slotMaps store) |}.

(** The template object. [slotSpecification] is a JavaScript object used as
    a record from slot keys to valuator providers; it is held as the list
    of its entries, in the order [Object.entries] enumerates them.
    [fragmentsToKeysToSlots] is the field of the base class [Template]: a
    reference to a [Map] from fragments to slot maps. The settings of the
    template play no role in the method below and are left out. *)
Record RegexPatternTemplate : Type := mkRegexPatternTemplate {
  regexPatternFinder : RegexPatternFinder.RegexPatternFinder;
  slotSpecification : list (TemplateSlotKey * TemplateSlotValuatorProvider);
  fragmentsToKeysToSlots : loc
}.

(** The constructor. The base class [Template] is not among the sources;
    its constructor is taken to create the [Map] of the field
    [fragmentsToKeysToSlots]. *)
Definition new (pattern : string)
    (slotSpecification : list (TemplateSlotKey * TemplateSlotValuatorProvider))
    (store : Store) : RegexPatternTemplate * Store :=
  let l := fresh (dom (fragmentMaps store)) in
  ({| regexPatternFinder := RegexPatternFinder.new pattern;
      slotSpecification := slotSpecification;
      fragmentsToKeysToSlots := l |},
   {| fragmentMaps := <[l := ∅]> (fragmentMaps store);
      slotMaps := slotMaps store |}).

(** [match.groups.find(group => group.name === slotKey)] *)
Definition findMatchingRegexGroup (match_ : RegexMatch.RegexMatch) (slotKey : TemplateSlotKey)
  : option RegexGroup.RegexGroup :=
  find (fun group => String.eqb (RegexGroup.name group) slotKey) (RegexMatch.groups match_).

(** The body of the inner loop, for one entry of the slot specification. *)
Definition provideSlot (keysToSlots : loc) (match_ : RegexMatch.RegexMatch)
    (document : Document) (store : Store)
    (entry : TemplateSlotKey * TemplateSlotValuatorProvider) : Store :=
  let '(slotKey, slotValuatorProvider) := entry in
  (* For each slot specification, try to find a regex group whose name matches the slot key. *)
  match findMatchingRegexGroup match_ slotKey with
  | Some matchingRegexGroup =>
      slotMapSet keysToSlots slotKey
        (TextualTemplateSlot.mkTextualTemplateSlot
           (RegexGroup.value matchingRegexGroup)
           (RegexGroup.range matchingRegexGroup)
           document
           slotKey
           slotValuatorProvider)
        store
  | None => store
  end.

(** The body of the outer loop, for one fragment and its match. *)
Definition provideSlotsOfFragment (this : RegexPatternTemplate) (document : Document)
    (store : Store) (fragmentWithMatch : FragmentWithMatch) : Store :=
  let '(keysToSlots, store) := newSlotMap store in
  let store :=
    fragmentMapSet (fragmentsToKeysToSlots this) (fragment fragmentWithMatch) keysToSlots store in
  fold_left (provideSlot keysToSlots (match_ fragmentWithMatch) document)
            (slotSpecification this) store.

(** [provideFragmentsForDocument]. The method is declared [async] but
    awaits nothing: its body runs to its end without interruption, and the
    promise it returns is resolved with the fragments. *)
Definition provideFragmentsForDocument (this : RegexPatternTemplate) (document : Document)
    (store : Store) : list TextualFragment * Store :=
  let fragmentsWithMatches :=
    provideFragmentsWithMatchesForDocument (regexPatternFinder this) document in
  let store := fragmentMapClear (fragmentsToKeysToSlots this) store in
  let store := fold_left (provideSlotsOfFragment this document) fragmentsWithMatches store in
  (map fragment fragmentsWithMatches, store).

(** The entries that the inner loop puts in a slot map that holds [slots]
    already: the effect of the loop, without the store. *)
Definition slotsProvided (match_ : RegexMatch.RegexMatch) (document : Document)
    (entries : list (TemplateSlotKey * TemplateSlotValuatorProvider))
    (slots : gmap TemplateSlotKey (TextualTemplateSlot TemplateSlotValuatorProvider))
  : gmap TemplateSlotKey (TextualTemplateSlot TemplateSlotValuatorProvider) :=
  fold_left
    (fun slots entry =>
       match findMatchingRegexGroup match_ (fst entry) with
       | Some matchingRegexGroup =>
           <[fst entry :=
               TextualTemplateSlot.mkTextualTemplateSlot
                 (RegexGroup.value matchingRegexGroup)
                 (RegexGroup.range matchingRegexGroup)
                 document
                 (fst entry)
                 (snd entry)]> slots
       | None => slots
       end)
    entries slots.

(** A slot is bound to the first group of the match that bears its key, to
    the document and to the key. *)
Definition slotBoundTo (match_ : RegexMatch.RegexMatch) (document : Document)
    (slotKey : TemplateSlotKey)
    (slot : TextualTemplateSlot TemplateSlotValuatorProvider) : Prop :=
  exists group,
    findMatchingRegexGroup match_ slotKey = Some group
    /\ TextualTemplateSlot.text slot = RegexGroup.value group
    /\ TextualTemplateSlot.range slot = RegexGroup.range group
    /\ TextualTemplateSlot.document slot = document
    /\ TextualTemplateSlot.key slot = slotKey.

(** The slot map of a fragment, read through the template's mapping. *)
Definition slotsOfFragment (this : RegexPatternTemplate) (store : Store)
    (fragment : TextualFragment)
  : option (gmap TemplateSlotKey (TextualTemplateSlot TemplateSlotValuatorProvider)) :=
  match fragmentMapAt store (fragmentsToKeysToSlots this) !! TextualFragment.identity fragment with
  | Some keysToSlots => Some (slotMapAt store keysToSlots)
  | None => None
  end.

End Template.

Arguments fragmentMaps {_} _.
Arguments slotMaps {_} _.
Arguments mkStore {_} _ _.
Arguments regexPatternFinder {_} _.
Arguments slotSpecification {_} _.
Arguments fragmentsToKeysToSlots {_} _.
Arguments mkRegexPatternTemplate {_} _ _ _.
Arguments fragmentMapAt {_} _ _.
Arguments slotMapAt {_} _ _.
Arguments slotsOfFragment {_} _ _ _.
Arguments fragmentMapClear {_} _ _.
Arguments fragmentMapSet {_} _ _ _ _.
Arguments newSlotMap {_} _.
Arguments slotMapSet {_} _ _ _ _.
Arguments provideSlot {_} _ _ _ _ _.
Arguments provideSlotsOfFragment {_} _ _ _ _.
Arguments provideFragmentsForDocument {_} _ _ _ _.
Arguments slotsProvided {_} _ _ _ _.
Arguments slotBoundTo {_} _ _ _ _.
Arguments new {_} _ _ _.

End RegexPatternTemplate.

(** ** A sample template: pixel lengths in a style sheet *)

Module PixelLengths.

Import RegexPatternTemplate.

(** Tokens that stand for the valuator providers of the two kinds of
    valuators, textual and numeric. *)
Variant ValuatorProvider : Type :=
  | TextualValuator
  | NumericValuator.

Definition CSS_LANGUAGE : Language :=
  Language.mkLanguage "CSS" "css" "css" None.

Definition styleSheet : Document :=
  Document.mkDocument CSS_LANGUAGE "width: 10px; height: 20px;".

Definition emptyStyleSheet : Document :=
  Document.mkDocument CSS_LANGUAGE "".

Definition span (from to : Z) : Range :=
  Range.mkRange (Position.mkPosition 0 from) (Position.mkPosition 0 to).

(** The matches of [(?<num>\d+)px] in the style sheet. *)
Definition widthMatch : FragmentWithMatch :=
  {| fragment := TextualFragment.mkTextualFragment 1 "10px" (span 7 11);
     match_ := RegexMatch.mkRegexMatch "10px" (span 7 11)
                 [RegexGroup.mkRegexGroup "num" "10" (span 7 9)] |}.

Definition heightMatch : FragmentWithMatch :=
  {| fragment := TextualFragment.mkTextualFragment 2 "20px" (span 21 25);
     match_ := RegexMatch.mkRegexMatch "20px" (span 21 25)
                 [RegexGroup.mkRegexGroup "num" "20" (span 21 23)] |}.

(** A finder that knows the matches in the style sheet and finds none
    elsewhere. *)
Definition pixelLengthsIn (finder : RegexPatternFinder.RegexPatternFinder)
    (document : Document) : list FragmentWithMatch :=
  if String.eqb (Document.content document) (Document.content styleSheet)
  then [widthMatch; heightMatch]
  else [].

Definition emptyStore : Store ValuatorProvider := mkStore ∅ ∅.

(** The template declares the slot [num], which the pattern captures, and
    the slot [unit], which it does not. *)
Definition creation : RegexPatternTemplate ValuatorProvider * Store ValuatorProvider :=
  new "(?<num>\d+)px" [("num", NumericValuator); ("unit", TextualValuator)] emptyStore.

Definition template : RegexPatternTemplate ValuatorProvider := fst creation.

Definition storeAtCreation : Store ValuatorProvider := snd creation.

(** A first pass, over the style sheet, and a second one, after the
    document has been emptied. *)
Definition storeAfterFirstPass : Store ValuatorProvider :=
  snd (provideFragmentsForDocument pixelLengthsIn template styleSheet storeAtCreation).

Definition storeAfterSecondPass : Store ValuatorProvider :=
  snd (provideFragmentsForDocument pixelLengthsIn template emptyStyleSheet storeAfterFirstPass).

End PixelLengths.

(** ** JavaScript maps that are read in insertion order *)

Module JsMap.

Section JsMap.

Context {K V : Type} `{EqDecision K}.

(** A [Map] as the list of its entries, in insertion order. [set] on a key
    that is present replaces the value where the entry stands; on a new key
    it adds an entry at the end. *)
Fixpoint set (key : K) (value : V) (entries : list (K * V)) : list (K * V) :=
  match entries with
  | [] => [(key, value)]
  | (key', value') :: rest =>
      if decide (key' = key) then (key, value) :: rest
      else (key', value') :: set key value rest
  end.

Fixpoint get (key : K) (entries : list (K * V)) : option V :=
  match entries with
  | [] => None
  | (key', value') :: rest =>
      if decide (key' = key) then Some value' else get key rest
  end.

Definition has (key : K) (entries : list (K * V)) : bool :=
  match get key entries with
  | Some _ => true
  | None => false
  end.

(** [[...map.values()]] *)
Definition values (entries : list (K * V)) : list V := map snd entries.

Definition keys (entries : list (K * V)) : list K := map fst entries.

End JsMap.

End JsMap.

(** ** The environment provider of the Visual Studio Code editor
       (apps/vscode-editor/VisualStudioCodeEditorMonocleEnvironmentProvider.tsx) *)

Module VisualStudioCodeEditor.

Section Provider.

(** The types of request identifiers, raw requests, raw responses and
    responses (core/runtime) are not among the sources. A raw response
    names the request it answers; a response is built from a raw response, the
    name of the request and the time of reception. *)
Context {RuntimeRequestId : Type} `{EqDecision RuntimeRequestId}.
Context {RawRuntimeRequest RawRuntimeResponse RuntimeResponse : Type}.
Variable requestId : RawRuntimeResponse -> RuntimeRequestId.
Variable fromRawResponse : RawRuntimeResponse -> string -> Z -> RuntimeResponse.

(** The language registry that [getLanguageWithId] searches. *)
Variables TYPESCRIPT_LANGUAGE MATHEMATICS_LANGUAGE JSON_LANGUAGE
          CSS_LANGUAGE PLAIN_TEXT_LANGUAGE : Language.
Variable PythonParser : Language.Parser.

(** [===] on two language objects compares references. *)
Variable sameLanguage : Language -> Language -> bool.

(** The fields of a runtime request that the provider reads. *)
Record RuntimeRequest : Type := mkRuntimeRequest {
  id : RuntimeRequestId;
  name : string;
  raw : RawRuntimeRequest
}.

(** A monocle: an object (named by its identity) with runtime requests. *)
Record Monocle : Type := mkMonocle {
  identity : nat;
  runtimeRequests : list RuntimeRequest
}.

(** The messages sent to the extension. *)
Inductive OutgoingMessage : Type :=
  | SetDocument (languageId content : string)
  | SetContent (content : string)
  | SetRuntimeRequests (requests : list RawRuntimeRequest)
  | EditorReady.

(** What a method does to its collaborators, in order: the console, the
    messenger, the monocles and the methods inherited from the base class
    [MonocleEnvironmentProvider]. *)
Inductive Effect : Type :=
  | consoleWarn
  | consoleInfo
  | sendMessage (message : OutgoingMessage)
  | queueRuntimeResponse (monocle : Monocle) (response : RuntimeResponse)
  | setDocument (document : Document)
  | setDocumentContent (content : string)
  | superComponentDidMount
  | startListeningForMessages.

(** The private field [runtimeRequestIdsToMonoclesAndRequests]. *)
Definition RequestTable : Type := list (RuntimeRequestId * (Monocle * RuntimeRequest)).

(** [get runtimeRequests()] *)
Definition getRuntimeRequests (table : RequestTable) : list RuntimeRequest :=
  map (fun monocleAndRequest => snd monocleAndRequest) (JsMap.values table).

(** [get rawRuntimeRequests()] *)
Definition getRawRuntimeRequests (table : RequestTable) : list RawRuntimeRequest :=
  map (fun request => raw request) (getRuntimeRequests table).

(** The handler of [set-document] messages. *)
Definition handleSetDocument (languageId content : string) : list Effect :=
  match Language.getLanguageWithId TYPESCRIPT_LANGUAGE MATHEMATICS_LANGUAGE JSON_LANGUAGE
          CSS_LANGUAGE PLAIN_TEXT_LANGUAGE PythonParser languageId with
  | None => [consoleWarn]
  | Some language => [setDocument (Document.mkDocument language content)]
  end.

(** The handler of [set-content] messages. *)
Definition handleSetContent (content : string) : list Effect :=
  [setDocumentContent content].

(** [remapRuntimeRequestIdsToMonoclesAndRequests] *)
Definition remapRuntimeRequestIdsToMonoclesAndRequests (monocles : list Monocle)
    (table : RequestTable) : RequestTable :=
  let table : RequestTable := [] in
  fold_left
    (fun table monocle =>
       fold_left
         (fun table request => JsMap.set (id request) (monocle, request) table)
         (runtimeRequests monocle) table)
    monocles table.

(** [processRawRuntimeResponse] *)
Definition processRawRuntimeResponse (rawResponse : RawRuntimeResponse) (receptionTime : Z)
    (table : RequestTable) : list Effect :=
  if negb (JsMap.has (requestId rawResponse) table) then [consoleWarn]
  else
    match JsMap.get (requestId rawResponse) table with
    | Some (monocle, request) =>
        (* Convert the raw response to a standard response. *)
        let response := fromRawResponse rawResponse (name request) receptionTime in
        (* Dispatch the response to the appropriate monocle. *)
        [queueRuntimeResponse monocle response; consoleInfo]
    | None => [] (* not reached: the table has the key *)
    end.

(** The handler of [runtime-response] messages; [now] is [Date.now()]. *)
Definition handleRuntimeResponse (rawResponse : RawRuntimeResponse) (now : Z)
    (table : RequestTable) : list Effect :=
  processRawRuntimeResponse rawResponse now table.

(** The changes of the environment: each field may be absent. *)
Record EnvironmentChanges : Type := mkEnvironmentChanges {
  document : option Document;
  monocles : option (list Monocle)
}.

(** [onEnvironmentDidChange]; [stateDocument] is [this.state.document]. *)
Definition onEnvironmentDidChange (environmentChanges : EnvironmentChanges)
    (stateDocument : Document) (table : RequestTable) : RequestTable * list Effect :=
  let documentEffects :=
    match document environmentChanges with
    | Some changedDocument =>
        let currentLanguage := Document.language stateDocument in
        if sameLanguage (Document.language changedDocument) currentLanguage then
          [sendMessage (SetDocument (Language.id (Document.language stateDocument))
                                    (Document.content stateDocument))]
        else
          [sendMessage (SetContent (Document.content stateDocument))]
    | None => []
    end in
  match monocles environmentChanges with
  | Some changedMonocles =>
      (* Update the list of runtime requests of each monocle. *)
      let table := remapRuntimeRequestIdsToMonoclesAndRequests changedMonocles table in
      (* Send a list of all the runtime requests to the extension. *)
      (table, documentEffects ++ [sendMessage (SetRuntimeRequests (getRawRuntimeRequests table))])
  | None => (table, documentEffects)
  end.

(** [componentDidMount] *)
Definition componentDidMount : list Effect :=
  [superComponentDidMount; startListeningForMessages; sendMessage EditorReady].

(** All the requests of a list of monocles, each with its monocle, in the
    order in which [remapRuntimeRequestIdsToMonoclesAndRequests] visits them. *)
Definition monoclesAndRequests (monocles : list Monocle) : list (Monocle * RuntimeRequest) :=
  flat_map (fun monocle => map (fun request => (monocle, request)) (runtimeRequests monocle))
           monocles.

End Provider.

End VisualStudioCodeEditor.

(** ** Sample data for the further properties *)

Module MoreSamples.

Import RegexPatternTemplate.

(** A second match that comes with the fragment object of the width, with
    a group [unit] instead of [num]. *)
Definition widthUnitMatch : FragmentWithMatch :=
  {| fragment := fragment PixelLengths.widthMatch;
     match_ := RegexMatch.mkRegexMatch "10px" (PixelLengths.span 7 11)
                 [RegexGroup.mkRegexGroup "unit" "px" (PixelLengths.span 9 11)] |}.

(** A finder that returns the same fragment object twice. *)
Definition sameFragmentTwice (finder : RegexPatternFinder.RegexPatternFinder)
    (document : Document) : list FragmentWithMatch :=
  [PixelLengths.widthMatch; widthUnitMatch].

(** The slot that the first pass of [PixelLengths] makes for the width. *)
Definition widthSlot : TextualTemplateSlot PixelLengths.ValuatorProvider :=
  TextualTemplateSlot.mkTextualTemplateSlot
    "10" (PixelLengths.span 7 9) PixelLengths.styleSheet "num" PixelLengths.NumericValuator.

(** A second template, created in the store that the first pass of
    [PixelLengths] left. *)
Definition secondCreation
  : RegexPatternTemplate PixelLengths.ValuatorProvider * Store PixelLengths.ValuatorProvider :=
  new "(?<num>\d+)(?<unit>px)" [("unit", PixelLengths.TextualValuator)]
      PixelLengths.storeAfterFirstPass.

Definition secondTemplate : RegexPatternTemplate PixelLengths.ValuatorProvider :=
  fst secondCreation.

Definition storeWithTwoTemplates : Store PixelLengths.ValuatorProvider :=
  snd secondCreation.

(** A parser that returns the same tree for every text. *)
Definition constantParser : Language.Parser :=
  Language.mkParser
    (fun _ => SyntaxTree.mkSyntaxTree (SyntaxTree.mkNode "Program" (PixelLengths.span 0 0) [])).

(** A position shifted by the rows and columns of an origin. *)
Definition shiftedBy (position origin : Position) : Position :=
  Position.mkPosition (Position.row position - Position.row origin)
                      (Position.column position - Position.column origin).

End MoreSamples.

(* ===================================================================== *)
(** * Properties *)
(* ===================================================================== *)

(** ** Positions and ranges *)

Lemma isEqualTo_spec (p q : Position) :
  Position.isEqualTo p q = true <-> p = q.
Proof.
  destruct p as [r1 c1], q as [r2 c2]; unfold Position.isEqualTo; simpl.
  rewrite andb_true_iff, !Z.eqb_eq. split.
  - intros [-> ->]; reflexivity.
  - intros H; injection H; auto.
Qed.

Lemma isBefore_spec (p q : Position) :
  Position.isBefore p q = true <->
  ((Position.row p < Position.row q)%Z \/
   (Position.row p = Position.row q /\ (Position.column p < Position.column q)%Z)).
Proof.
  unfold Position.isBefore.
  rewrite orb_true_iff, andb_true_iff, !Z.ltb_lt, Z.eqb_eq. tauto.
Qed.

Lemma not_isBefore_le (p q : Position) :
  Position.isBefore q p = false -> Position.le p q.
Proof.
  intros H. unfold Position.le.
  destruct (Z.lt_trichotomy (Position.row p) (Position.row q)) as [Hlt | [Heq | Hgt]].
  - left; exact Hlt.
  - right; split; [exact Heq |].
    destruct (Z.le_gt_cases (Position.column p) (Position.column q)) as [Hle | Hc]; [exact Hle |].
    assert (Position.isBefore q p = true) as Hb by (apply isBefore_spec; right; lia).
    congruence.
  - assert (Position.isBefore q p = true) as Hb by (apply isBefore_spec; left; lia).
    congruence.
Qed.

Lemma isBefore_le (p q : Position) :
  Position.isBefore p q = true -> Position.le p q.
Proof.
  intros H%isBefore_spec. unfold Position.le. lia.
Qed.

Lemma isBefore_asym (p q : Position) :
  Position.isBefore p q = true -> Position.isBefore q p = false.
Proof.
  intros H%isBefore_spec.
  destruct (Position.isBefore q p) eqn:E; [| reflexivity].
  apply isBefore_spec in E. lia.
Qed.

Lemma isBefore_total (p q : Position) :
  Position.isBefore p q = false -> Position.isBefore q p = false -> p = q.
Proof.
  intros H1 H2.
  apply not_isBefore_le in H1. apply not_isBefore_le in H2.
  destruct p as [r1 c1], q as [r2 c2]; unfold Position.le in *; simpl in *.
  f_equal; lia.
Qed.

Lemma fromUnsortedPositions_le (p1 p2 : Position) :
  Position.le (Range.start (Range.fromUnsortedPositions p1 p2))
              (Range.end_ (Range.fromUnsortedPositions p1 p2)).
Proof.
  unfold Range.fromUnsortedPositions.
  destruct (Position.isBefore p2 p1) eqn:E21; simpl.
  - apply isBefore_le; exact E21.
  - apply not_isBefore_le; exact E21.
Qed.

Lemma fromUnsortedPositions_comm (p1 p2 : Position) :
  Range.fromUnsortedPositions p1 p2 = Range.fromUnsortedPositions p2 p1.
Proof.
  unfold Range.fromUnsortedPositions.
  destruct (Position.isBefore p2 p1) eqn:E21.
  - rewrite (isBefore_asym _ _ E21). reflexivity.
  - destruct (Position.isBefore p1 p2) eqn:E12; [reflexivity |].
    rewrite (isBefore_total _ _ E12 E21). reflexivity.
Qed.

(** The ends of the range are the two positions, one each. *)
Lemma fromUnsortedPositions_ends (p1 p2 : Position) :
  (Range.start (Range.fromUnsortedPositions p1 p2) = p1
   /\ Range.end_ (Range.fromUnsortedPositions p1 p2) = p2)
  \/ (Range.start (Range.fromUnsortedPositions p1 p2) = p2
      /\ Range.end_ (Range.fromUnsortedPositions p1 p2) = p1).
Proof.
  unfold Range.fromUnsortedPositions.
  destruct (Position.isBefore p2 p1); simpl; [right | left]; split; reflexivity.
Qed.

(** Positions that come in document order are kept in that order. *)
Lemma fromUnsortedPositions_of_sorted (p1 p2 : Position) :
  Position.le p1 p2 -> Range.fromUnsortedPositions p1 p2 = Range.mkRange p1 p2.
Proof.
  intros Hle. unfold Range.fromUnsortedPositions.
  destruct (Position.isBefore p2 p1) eqn:E; [| reflexivity].
  exfalso. apply isBefore_spec in E. unfold Position.le in Hle. lia.
Qed.

(** C8. For every pair of positions [p1], [p2], [Range.fromUnsortedPositions]
    returns the range of these two positions in document order: its start is
    at or before its end, its ends are [p1] and [p2] (one each), two
    positions that come in order are kept as they come, and the result does
    not depend on the order of the two arguments. *)
Theorem fromUnsortedPositions_sorted_and_symmetric (p1 p2 : Position) :
  Position.le (Range.start (Range.fromUnsortedPositions p1 p2))
              (Range.end_ (Range.fromUnsortedPositions p1 p2))
  /\ Range.fromUnsortedPositions p1 p2 = Range.fromUnsortedPositions p2 p1
  /\ ((Range.start (Range.fromUnsortedPositions p1 p2) = p1
       /\ Range.end_ (Range.fromUnsortedPositions p1 p2) = p2)
      \/ (Range.start (Range.fromUnsortedPositions p1 p2) = p2
          /\ Range.end_ (Range.fromUnsortedPositions p1 p2) = p1))
  /\ (Position.le p1 p2 ->
      Range.fromUnsortedPositions p1 p2 = Range.mkRange p1 p2)
  /\ (Position.le p2 p1 ->
      Range.fromUnsortedPositions p1 p2 = Range.mkRange p2 p1).
Proof.
  split; [apply fromUnsortedPositions_le |].
  split; [apply fromUnsortedPositions_comm |].
  split; [apply fromUnsortedPositions_ends |].
  split; [apply fromUnsortedPositions_of_sorted |].
  intros Hle. rewrite fromUnsortedPositions_comm. apply fromUnsortedPositions_of_sorted, Hle.
Qed.

(** The range the code editor builds from a selection is sorted, whichever
    way the selection was dragged. *)
Lemma convertMonacoSelection_sorted
    (getPositionAtLineAndColumn : Document -> Z -> Z -> Position)
    (selection : CodeEditor.MonacoSelection) (document : Document) :
  Position.le
    (Range.start (CodeEditor.convertMonacoSelection getPositionAtLineAndColumn selection document))
    (Range.end_ (CodeEditor.convertMonacoSelection getPositionAtLineAndColumn selection document)).
Proof.
  unfold CodeEditor.convertMonacoSelection. apply fromUnsortedPositions_le.
Qed.

(** C9. [Range.fromSinglePosition p] is the range from [p] to [p], it is
    empty, and a range is empty exactly when its start equals its end. *)
Theorem fromSinglePosition_isEmpty :
  (forall p : Position,
      Range.start (Range.fromSinglePosition p) = p
      /\ Range.end_ (Range.fromSinglePosition p) = p
      /\ Range.isEmpty (Range.fromSinglePosition p) = true)
  /\ (forall r : Range,
        Range.isEmpty r = true <-> Range.start r = Range.end_ r).
Proof.
  split.
  - intros p. repeat split. unfold Range.isEmpty; simpl. apply isEqualTo_spec; reflexivity.
  - intros r. unfold Range.isEmpty. apply isEqualTo_spec.
Qed.

(** ** The language registry *)

Lemma find_language_sound (supported : list Language) (id : string) (language : Language) :
  find (fun language => String.eqb (Language.id language) id) supported = Some language ->
  In language supported /\ Language.id language = id.
Proof.
  intros H. apply find_some in H as [Hin Heq].
  split; [exact Hin | apply String.eqb_eq; exact Heq].
Qed.

Lemma find_language_none (supported : list Language) (id : string) :
  find (fun language => String.eqb (Language.id language) id) supported = None <->
  forall language, In language supported -> Language.id language <> id.
Proof.
  split.
  - intros H language Hin Heq.
    pose proof (find_none _ _ H language Hin) as Hf. simpl in Hf.
    apply String.eqb_neq in Hf. contradiction.
  - intros H.
    destruct (find (fun language => String.eqb (Language.id language) id) supported)
      as [language |] eqn:E; [| reflexivity].
    destruct (find_language_sound _ _ _ E) as [Hin Heq]. exfalso. exact (H language Hin Heq).
Qed.

(** C7. [getLanguageWithId id] only ever returns a supported language whose
    identifier is [id]; it returns the absent result exactly when no
    supported language has that identifier; and when a single supported
    language has the identifier, that language is the result. *)
Theorem getLanguageWithId_sound_and_complete
    (TYPESCRIPT_LANGUAGE MATHEMATICS_LANGUAGE JSON_LANGUAGE
     CSS_LANGUAGE PLAIN_TEXT_LANGUAGE : Language)
    (PythonParser : Language.Parser) (id : string) :
  let supported :=
    Language.SUPPORTED_LANGUAGES TYPESCRIPT_LANGUAGE MATHEMATICS_LANGUAGE JSON_LANGUAGE
                                 CSS_LANGUAGE PLAIN_TEXT_LANGUAGE PythonParser in
  let result :=
    Language.getLanguageWithId TYPESCRIPT_LANGUAGE MATHEMATICS_LANGUAGE JSON_LANGUAGE
                               CSS_LANGUAGE PLAIN_TEXT_LANGUAGE PythonParser id in
  (forall language, result = Some language ->
     In language supported /\ Language.id language = id)
  /\ (result = None <->
      forall language, In language supported -> Language.id language <> id)
  /\ (forall language,
        In language supported -> Language.id language = id ->
        (forall other, In other supported -> Language.id other = id -> other = language) ->
        result = Some language).
Proof.
  intros supported result. subst result. unfold Language.getLanguageWithId. fold supported.
  split; [apply find_language_sound |]. split; [apply find_language_none |].
  intros language Hin Heq Huniq.
  destruct (find (fun language => String.eqb (Language.id language) id) supported)
    as [found |] eqn:E.
  - destruct (find_language_sound _ _ _ E) as [Hin' Heq']. f_equal. apply Huniq; assumption.
  - exfalso. exact (proj1 (find_language_none _ _) E language Hin Heq).
Qed.

(** The Python language is found under its identifier whenever the four
    languages listed before it have other identifiers. *)
Lemma getLanguageWithId_python
    (TYPESCRIPT_LANGUAGE MATHEMATICS_LANGUAGE JSON_LANGUAGE
     CSS_LANGUAGE PLAIN_TEXT_LANGUAGE : Language)
    (PythonParser : Language.Parser) :
  Language.id TYPESCRIPT_LANGUAGE <> "python" ->
  Language.id MATHEMATICS_LANGUAGE <> "python" ->
  Language.id JSON_LANGUAGE <> "python" ->
  Language.id CSS_LANGUAGE <> "python" ->
  Language.getLanguageWithId TYPESCRIPT_LANGUAGE MATHEMATICS_LANGUAGE JSON_LANGUAGE
                             CSS_LANGUAGE PLAIN_TEXT_LANGUAGE PythonParser "python"
  = Some (Language.PYTHON_LANGUAGE PythonParser).
Proof.
  intros H1 H2 H3 H4.
  unfold Language.getLanguageWithId, Language.SUPPORTED_LANGUAGES. simpl.
  apply String.eqb_neq in H1, H2, H3, H4.
  rewrite H1, H2, H3, H4. reflexivity.
Qed.

(** ** The textual pattern finder *)

Section ApplyInDocumentFacts.

Variables RegexMatch TextualPattern : Type.
Variable matchAll : RegexPatternFinder.RegexMatcher -> string -> list RegexMatch.
Variable fromRegexMatch : RegexMatch -> Document -> TextualPattern.

Lemma isEmpty_content (document : Document) :
  Document.isEmpty document = true <-> Document.content document = "".
Proof.
  unfold Document.isEmpty. rewrite Nat.eqb_eq.
  destruct (Document.content document); simpl; split; congruence.
Qed.

(** On a document that is not empty the matcher is invoked once, on the
    whole content, and every match becomes one pattern. *)
Lemma applyInDocument_nonempty (this : RegexPatternFinder.RegexPatternFinder)
    (document : Document) (trace : list string) :
  Document.content document <> "" ->
  RegexPatternFinder.applyInDocument RegexMatch TextualPattern matchAll fromRegexMatch
    this document trace
  = (map (fun match_ => fromRegexMatch match_ document)
         (matchAll (RegexPatternFinder.regexMatcher this) (Document.content document)),
     trace ++ [Document.content document]).
Proof.
  intros Hne. unfold RegexPatternFinder.applyInDocument.
  destruct (Document.isEmpty document) eqn:E.
  - apply isEmpty_content in E. contradiction.
  - reflexivity.
Qed.

End ApplyInDocumentFacts.

(** C3. On a document whose content is empty, [applyInDocument] returns the
    empty list and leaves the trace of matcher invocations as it found it:
    [matchAll] is not called. *)
Theorem applyInDocument_empty_document
    (RegexMatch TextualPattern : Type)
    (matchAll : RegexPatternFinder.RegexMatcher -> string -> list RegexMatch)
    (fromRegexMatch : RegexMatch -> Document -> TextualPattern)
    (this : RegexPatternFinder.RegexPatternFinder)
    (document : Document) (trace : list string) :
  Document.content document = "" ->
  RegexPatternFinder.applyInDocument RegexMatch TextualPattern matchAll fromRegexMatch
    this document trace
  = ([], trace).
Proof.
  intros Hempty. unfold RegexPatternFinder.applyInDocument.
  destruct (Document.isEmpty document) eqn:E.
  - reflexivity.
  - apply isEmpty_content in Hempty. congruence.
Qed.

(** An instance of C3: an empty plain-text document, a matcher that would
    report a match on any text. *)
Lemma applyInDocument_empty_document_witness :
  RegexPatternFinder.applyInDocument nat nat (fun _ _ => [0%nat]) (fun m _ => m)
    (RegexPatternFinder.new "a*")
    (Document.mkDocument (Language.mkLanguage "Plain text" "plain-text" "plaintext" None) "")
    []
  = ([], []).
Proof.
  apply (applyInDocument_empty_document nat nat (fun _ _ => [0%nat]) (fun m _ => m)).
  reflexivity.
Defined.

(** ** The regular-expression matcher *)

Section MatchAllFacts.

Variable exec : string -> nat -> option RegexMatcher.OffsetMatch.
Hypothesis exec_reports : RegexMatcher.engineReportsFrom exec.

(** The scan position moves past the start of every match, and past the end
    of a zero-width one. *)
Lemma nextIndex_advances (m : RegexMatcher.OffsetMatch) :
  (RegexMatcher.startOffset m <= RegexMatcher.endOffset m ->
   RegexMatcher.startOffset m < RegexMatcher.nextIndex m
   /\ RegexMatcher.endOffset m <= RegexMatcher.nextIndex m
   /\ RegexMatcher.nextIndex m <= RegexMatcher.endOffset m + 1
   /\ (RegexMatcher.endOffset m = RegexMatcher.startOffset m ->
       RegexMatcher.nextIndex m = RegexMatcher.endOffset m + 1))%nat.
Proof.
  intros Hle. unfold RegexMatcher.nextIndex.
  destruct (Nat.eqb_spec (RegexMatcher.endOffset m) (RegexMatcher.startOffset m)); lia.
Qed.

(** With enough iterations the scan returns, its matches start at or after
    the scan position, and their starts increase strictly. *)
Lemma scanFrom_returns (text : string) (fuel lastIndex : nat) :
  (lastIndex <= String.length text + 1)%nat ->
  (String.length text + 2 - lastIndex <= fuel)%nat ->
  exists found,
    RegexMatcher.scanFrom exec fuel text lastIndex = Some found
    /\ Forall (fun m => (lastIndex <= RegexMatcher.startOffset m)%nat) found
    /\ StronglySorted lt (map RegexMatcher.startOffset found).
Proof.
  revert lastIndex. induction fuel as [| fuel IH]; intros lastIndex Hbound Hfuel.
  - lia.
  - simpl. destruct (Nat.ltb_spec (String.length text) lastIndex) as [Hpast | Hin].
    + exists []. repeat split; constructor.
    + destruct (exec text lastIndex) as [m |] eqn:Em.
      * destruct (exec_reports _ _ _ Em) as (Hs & Hse & He).
        destruct (nextIndex_advances m Hse) as (Hadv & _ & Hnext & _).
        destruct (IH (RegexMatcher.nextIndex m)) as (rest & Hrest & Hfrom & Hsorted); [lia | lia |].
        rewrite Hrest. exists (m :: rest). split; [reflexivity |]. split.
        -- constructor; [exact Hs |].
           eapply List.Forall_impl; [| exact Hfrom]. simpl. intros m' Hm'. lia.
        -- simpl. constructor; [exact Hsorted |].
           apply List.Forall_map. eapply List.Forall_impl; [| exact Hfrom]. simpl.
           intros m' Hm'. lia.
      * exists []. repeat split; constructor.
Qed.

End MatchAllFacts.

Lemma StronglySorted_lt_NoDup (l : list nat) : StronglySorted lt l -> NoDup l.
Proof.
  induction 1 as [| a l Hsorted IH Hall]; constructor; [| exact IH].
  intros Hin%list_elem_of_In. rewrite List.Forall_forall in Hall.
  specialize (Hall a Hin). lia.
Qed.

(** C5. For every engine that reports matches at or after the scan position
    it is given, whatever the pattern matches (the empty string included),
    and every text, [matchAll] returns; the starts of the matches it returns
    increase strictly, so no two matches start at the same offset. *)
Theorem matchAll_terminates_with_distinct_starts
    (exec : string -> nat -> option RegexMatcher.OffsetMatch) (text : string) :
  RegexMatcher.engineReportsFrom exec ->
  exists found,
    RegexMatcher.matchAll exec text = Some found
    /\ StronglySorted lt (map RegexMatcher.startOffset found)
    /\ NoDup (map RegexMatcher.startOffset found).
Proof.
  intros Hexec. unfold RegexMatcher.matchAll.
  destruct (scanFrom_returns exec Hexec text (String.length text + 2) 0)
    as (found & Hfound & _ & Hsorted); [lia | lia |].
  exists found. split; [exact Hfound |]. split; [exact Hsorted |].
  apply StronglySorted_lt_NoDup; exact Hsorted.
Qed.

Lemma emptyPatternEngine_reports :
  RegexMatcher.engineReportsFrom RegexMatcher.emptyPatternEngine.
Proof.
  intros text lastIndex m. unfold RegexMatcher.emptyPatternEngine.
  destruct (Nat.leb_spec lastIndex (String.length text)) as [Hle | Hgt]; [| discriminate].
  intros [= <-]. simpl. lia.
Qed.

(** The pattern that matches the empty string, scanned over a text of two
    characters, matches once at each of the three offsets. *)
Example matchAll_emptyPattern :
  RegexMatcher.matchAll RegexMatcher.emptyPatternEngine "ab"
  = Some [ RegexMatcher.mkOffsetMatch 0 0;
           RegexMatcher.mkOffsetMatch 1 1;
           RegexMatcher.mkOffsetMatch 2 2 ].
Proof. reflexivity. Qed.

(** An instance of C5: the empty pattern on a text of two characters. *)
Lemma matchAll_terminates_witness :
  exists found,
    RegexMatcher.matchAll RegexMatcher.emptyPatternEngine "ab" = Some found
    /\ StronglySorted lt (map RegexMatcher.startOffset found)
    /\ NoDup (map RegexMatcher.startOffset found).
Proof.
  apply (matchAll_terminates_with_distinct_starts RegexMatcher.emptyPatternEngine "ab").
  exact emptyPatternEngine_reports.
Defined.

(** ** The structural pattern finder *)

Section TreePatternFinderFacts.

Import TreePatternFinder.

Variable matches : SyntaxTreeNode -> bool.

Let skipping : SyntaxTreePattern := mkSyntaxTreePattern matches skipDescendants.
Let continuing : SyntaxTreePattern := mkSyntaxTreePattern matches continueIntoDescendants.

Lemma flat_map_filter_preorder (children : list SyntaxTreeNode) :
  List.filter matches (flat_map SyntaxTree.preorder children)
  = flat_map (fun child => List.filter matches (SyntaxTree.preorder child)) children.
Proof.
  induction children as [| child children IH]; simpl; [reflexivity |].
  rewrite List.filter_app, IH. reflexivity.
Qed.

(** With [continueIntoDescendants] the walk collects exactly the nodes of
    the pre-order listing for which the predicate holds. *)
Lemma findMatchingNodes_continuing (n : SyntaxTreeNode) :
  findMatchingNodes continuing n = List.filter matches (SyntaxTree.preorder n).
Proof.
  induction n as [type range children IH] using SyntaxTree.SyntaxTreeNode_children_ind.
  assert (Hchildren :
            flat_map (findMatchingNodes continuing) children
            = List.filter matches (flat_map SyntaxTree.preorder children)).
  { rewrite flat_map_filter_preorder.
    induction IH as [| child children Hchild _ IHchildren]; simpl; [reflexivity |].
    rewrite Hchild, IHchildren. reflexivity. }
  simpl. destruct (matches (SyntaxTree.mkNode type range children)); rewrite Hchildren; reflexivity.
Qed.

(** With either descent policy the walk collects a subsequence of the
    matching nodes of the pre-order listing. *)
Lemma findMatchingNodes_sublist (searchType : SearchType) (n : SyntaxTreeNode) :
  findMatchingNodes (mkSyntaxTreePattern matches searchType) n
    `sublist_of` List.filter matches (SyntaxTree.preorder n).
Proof.
  induction n as [type range children IH] using SyntaxTree.SyntaxTreeNode_children_ind.
  assert (Hchildren :
            flat_map (findMatchingNodes (mkSyntaxTreePattern matches searchType)) children
              `sublist_of` List.filter matches (flat_map SyntaxTree.preorder children)).
  { rewrite flat_map_filter_preorder.
    induction IH as [| child children Hchild _ IHchildren]; simpl; [constructor |].
    apply sublist_app; assumption. }
  simpl. destruct (matches (SyntaxTree.mkNode type range children)).
  - destruct searchType.
    + apply sublist_skip; exact Hchildren.
    + apply sublist_skip. apply sublist_nil_l.
  - exact Hchildren.
Qed.

Lemma flat_map_all_nil {A B : Type} (f : A -> list B) (l : list A) :
  (forall x, In x l -> f x = []) -> flat_map f l = [].
Proof.
  induction l as [| a l IH]; simpl; intros H; [reflexivity |].
  rewrite (H a) by (left; reflexivity). simpl. apply IH. intros x Hx. apply H. right; exact Hx.
Qed.

Lemma flat_map_only_one {A B : Type} (f : A -> list B) (l : list A) (i : nat) (a : A) :
  nth_error l i = Some a ->
  (forall j x, nth_error l j = Some x -> j <> i -> f x = []) ->
  flat_map f l = f a.
Proof.
  revert i. induction l as [| b l IH]; intros i Hi Hothers.
  - destruct i; discriminate.
  - destruct i as [| i]; simpl in *.
    + injection Hi as ->. rewrite flat_map_all_nil; [apply app_nil_r |].
      intros x Hx. apply In_nth_error in Hx as [j Hj].
      apply (Hothers (S j) x); [exact Hj | discriminate].
    + rewrite (Hothers 0%nat b eq_refl) by discriminate. simpl.
      apply (IH i Hi). intros j x Hj Hne. apply (Hothers (S j) x Hj). congruence.
Qed.

(** A subtree without a matching node yields nothing. *)
Lemma findMatchingNodes_no_match (pattern : SyntaxTreePattern) (n : SyntaxTreeNode) :
  (forall path m, SyntaxTree.nodeAt n path = Some m -> TreePatternFinder.matches pattern m = false) ->
  findMatchingNodes pattern n = [].
Proof.
  induction n as [type range children IH] using SyntaxTree.SyntaxTreeNode_children_ind.
  intros Hnone. simpl.
  rewrite (Hnone [] _ eq_refl).
  apply flat_map_all_nil. intros child Hchild.
  rewrite List.Forall_forall in IH. apply (IH child Hchild).
  intros path m Hm. apply In_nth_error in Hchild as [j Hj].
  apply (Hnone (j :: path) m). simpl. rewrite Hj. exact Hm.
Qed.

(** With [skipDescendants], when every matching node of the tree lies in
    the subtree of the matching node at [path], that node is the only one
    collected. *)
Lemma findMatchingNodes_skipping_outer (n outer : SyntaxTreeNode) (path : list nat) :
  SyntaxTree.nodeAt n path = Some outer ->
  matches outer = true ->
  (forall path' m, SyntaxTree.nodeAt n path' = Some m -> matches m = true ->
                   path `prefix_of` path') ->
  findMatchingNodes skipping n = [outer].
Proof.
  revert n. induction path as [| i path IH]; intros n Hat Houter Hwithin.
  - simpl in Hat. injection Hat as ->. destruct outer as [type range children].
    simpl. simpl in Houter. rewrite Houter. reflexivity.
  - destruct n as [type range children]. simpl in Hat.
    destruct (nth_error children i) as [child |] eqn:Hchild; [| discriminate].
    assert (Hroot : matches (SyntaxTree.mkNode type range children) = false).
    { destruct (matches (SyntaxTree.mkNode type range children)) eqn:E; [| reflexivity].
      exfalso. apply (prefix_nil_not i path). apply (Hwithin [] _ eq_refl E). }
    simpl. rewrite Hroot.
    rewrite (flat_map_only_one _ children i child Hchild).
    + apply IH; [exact Hat | exact Houter |].
      intros path' m Hm Hmatch.
      apply (prefix_cons_inv_2 i i). apply (Hwithin (i :: path') m); [| exact Hmatch].
      simpl. rewrite Hchild. exact Hm.
    + intros j x Hj Hne. apply findMatchingNodes_no_match.
      intros path' m Hm. simpl.
      destruct (matches m) eqn:E; [| reflexivity].
      exfalso. apply Hne. symmetry. apply (prefix_cons_inv_1 i j path path').
      apply (Hwithin (j :: path') m); [| exact E].
      simpl. rewrite Hj. exact Hm.
Qed.

(** The pre-order listing of a node contains, as a block, the listing of
    each node below it. *)
Lemma preorder_nodeAt (n m : SyntaxTreeNode) (path : list nat) :
  SyntaxTree.nodeAt n path = Some m ->
  exists before after,
    SyntaxTree.preorder n = before ++ SyntaxTree.preorder m ++ after
    /\ (path <> [] -> exists before', before = n :: before').
Proof.
  revert n. induction path as [| i path IH]; intros n Hat.
  - simpl in Hat. injection Hat as ->. exists [], []. split.
    + simpl. rewrite app_nil_r. reflexivity.
    + intros H. contradiction.
  - destruct n as [type range children]. simpl in Hat.
    destruct (nth_error children i) as [child |] eqn:Hchild; [| discriminate].
    destruct (IH child Hat) as (before & after & Hpre & _).
    apply nth_error_split in Hchild as (l1 & l2 & -> & _).
    exists (SyntaxTree.mkNode type range (l1 ++ child :: l2) :: flat_map SyntaxTree.preorder l1 ++ before),
           (after ++ flat_map SyntaxTree.preorder l2).
    split.
    + simpl. rewrite flat_map_app. simpl. rewrite Hpre.
      rewrite <- !app_assoc. reflexivity.
    + intros _. eexists. reflexivity.
Qed.

(** With [continueIntoDescendants], a matching node and a matching strict
    descendant of it are both collected, the outer one first. *)
Lemma findMatchingNodes_continuing_both (n outer inner : SyntaxTreeNode)
    (outerPath innerPath : list nat) :
  SyntaxTree.nodeAt n outerPath = Some outer ->
  SyntaxTree.nodeAt outer innerPath = Some inner ->
  innerPath <> [] ->
  matches outer = true ->
  matches inner = true ->
  exists l1 l2 l3,
    findMatchingNodes continuing n = l1 ++ outer :: l2 ++ inner :: l3.
Proof.
  intros Houter Hinner Hstrict Hmo Hmi.
  rewrite findMatchingNodes_continuing.
  destruct (preorder_nodeAt n outer outerPath Houter) as (b1 & a1 & H1 & _).
  destruct (preorder_nodeAt outer inner innerPath Hinner) as (b2 & a2 & H2 & Hb2).
  destruct (Hb2 Hstrict) as (b2' & ->).
  rewrite H1, H2.
  destruct inner as [itype irange ichildren].
  cbn [SyntaxTree.preorder]. cbn [SyntaxTree.preorder] in H2.
  exists (List.filter matches b1), (List.filter matches b2'),
    (List.filter matches (flat_map SyntaxTree.preorder ichildren)
       ++ List.filter matches a2 ++ List.filter matches a1).
  rewrite !List.filter_app. cbn [List.filter app].
  rewrite Hmo, Hmi.
  cbn [app]. rewrite <- ?app_assoc. cbn [app]. rewrite <- ?app_assoc. reflexivity.
Qed.

End TreePatternFinderFacts.

Lemma sublist_map {A B : Type} (f : A -> B) (l1 l2 : list A) :
  l1 `sublist_of` l2 -> map f l1 `sublist_of` map f l2.
Proof.
  induction 1; simpl; constructor; assumption.
Qed.

(** C2, as the walk has it. In a tree with a matching node and a matching
    strict descendant of it:
    - with [skipDescendants], when every matching node of the tree lies in
      the subtree of the outer node, exactly one fragment is yielded, for the
      outer node;
    - with [continueIntoDescendants], fragments for both nodes are yielded,
      the outer one first;
    - with [continueIntoDescendants] the fragments are those of the matching
      nodes in pre-order, and with [skipDescendants] a subsequence of them. *)
Theorem applyInTree_descent_policies
    (matches : SyntaxTreeNode -> bool) (tree : SyntaxTree.SyntaxTree)
    (outerPath innerPath : list nat) (outer inner : SyntaxTreeNode) :
  SyntaxTree.nodeAt (SyntaxTree.root tree) outerPath = Some outer ->
  SyntaxTree.nodeAt outer innerPath = Some inner ->
  innerPath <> [] ->
  matches outer = true ->
  matches inner = true ->
  let skipping :=
    TreePatternFinder.mkSyntaxTreePattern matches TreePatternFinder.SKIP_MATCH_DESCENDANTS in
  let continuing :=
    TreePatternFinder.mkSyntaxTreePattern matches TreePatternFinder.continueIntoDescendants in
  let matchingInPreorder :=
    map TreePatternFinder.fragmentOfNode
        (List.filter matches (SyntaxTree.preorder (SyntaxTree.root tree))) in
  ((forall path m,
       SyntaxTree.nodeAt (SyntaxTree.root tree) path = Some m -> matches m = true ->
       outerPath `prefix_of` path) ->
   TreePatternFinder.applyInTree skipping tree = [TreePatternFinder.fragmentOfNode outer])
  /\ (exists l1 l2 l3,
         TreePatternFinder.applyInTree continuing tree
         = l1 ++ TreePatternFinder.fragmentOfNode outer
              :: l2 ++ TreePatternFinder.fragmentOfNode inner :: l3)
  /\ TreePatternFinder.applyInTree continuing tree = matchingInPreorder
  /\ TreePatternFinder.applyInTree skipping tree `sublist_of` matchingInPreorder.
Proof.
  intros Houter Hinner Hstrict Hmo Hmi skipping continuing matchingInPreorder.
  subst skipping continuing matchingInPreorder.
  unfold TreePatternFinder.applyInTree, TreePatternFinder.SKIP_MATCH_DESCENDANTS.
  split; [| split; [| split]].
  - intros Hwithin.
    rewrite (findMatchingNodes_skipping_outer matches _ outer outerPath Houter Hmo Hwithin).
    reflexivity.
  - destruct (findMatchingNodes_continuing_both matches _ outer inner outerPath innerPath
                Houter Hinner Hstrict Hmo Hmi) as (l1 & l2 & l3 & Heq).
    exists (map TreePatternFinder.fragmentOfNode l1),
           (map TreePatternFinder.fragmentOfNode l2),
           (map TreePatternFinder.fragmentOfNode l3).
    rewrite Heq. rewrite map_app. simpl. rewrite map_app. reflexivity.
  - rewrite findMatchingNodes_continuing. reflexivity.
  - apply sublist_map. apply findMatchingNodes_sublist.
Qed.

(** The claim of C2 as it is written fails: below the outer property lies a
    matching property, yet [skipDescendants] yields two fragments, because a
    second property beside the outer one matches too. *)
Lemma applyInTree_skipping_two_fragments :
  SyntaxTree.nodeAt (SyntaxTree.root SampleTrees.nestedAndSiblingProperties) [0%nat]
    = Some SampleTrees.outerProperty
  /\ SyntaxTree.nodeAt SampleTrees.outerProperty [0%nat; 0%nat]
     = Some SampleTrees.innerProperty
  /\ SampleTrees.isProperty SampleTrees.outerProperty = true
  /\ SampleTrees.isProperty SampleTrees.innerProperty = true
  /\ TreePatternFinder.applyInTree
       (TreePatternFinder.mkSyntaxTreePattern SampleTrees.isProperty
          TreePatternFinder.SKIP_MATCH_DESCENDANTS)
       SampleTrees.nestedAndSiblingProperties
     = [ TreePatternFinder.fragmentOfNode SampleTrees.outerProperty;
         TreePatternFinder.fragmentOfNode SampleTrees.siblingProperty ]
  /\ length (TreePatternFinder.applyInTree
               (TreePatternFinder.mkSyntaxTreePattern SampleTrees.isProperty
                  TreePatternFinder.SKIP_MATCH_DESCENDANTS)
               SampleTrees.nestedAndSiblingProperties) <> 1%nat.
Proof.
  repeat split; try reflexivity. vm_compute. discriminate.
Qed.

Lemma nestedProperties_matches_within (path : list nat) (m : SyntaxTreeNode) :
  SyntaxTree.nodeAt (SyntaxTree.root SampleTrees.nestedProperties) path = Some m ->
  SampleTrees.isProperty m = true ->
  [0%nat] `prefix_of` path.
Proof.
  destruct path as [| [| i] path]; simpl.
  - intros [= <-]. discriminate.
  - intros _ _. apply prefix_cons, prefix_nil.
  - destruct i; discriminate.
Qed.

(** An instance of C2: the object whose single property holds an object
    with one property. *)
Lemma applyInTree_descent_policies_witness :
  TreePatternFinder.applyInTree
    (TreePatternFinder.mkSyntaxTreePattern SampleTrees.isProperty
       TreePatternFinder.SKIP_MATCH_DESCENDANTS)
    SampleTrees.nestedProperties
  = [TreePatternFinder.fragmentOfNode SampleTrees.outerProperty]
  /\ exists l1 l2 l3,
      TreePatternFinder.applyInTree
        (TreePatternFinder.mkSyntaxTreePattern SampleTrees.isProperty
           TreePatternFinder.continueIntoDescendants)
        SampleTrees.nestedProperties
      = l1 ++ TreePatternFinder.fragmentOfNode SampleTrees.outerProperty
           :: l2 ++ TreePatternFinder.fragmentOfNode SampleTrees.innerProperty :: l3.
Proof.
  destruct (applyInTree_descent_policies SampleTrees.isProperty
              SampleTrees.nestedProperties [0%nat] [0%nat; 0%nat]
              SampleTrees.outerProperty SampleTrees.innerProperty)
    as (Hskip & Hboth & _).
  - reflexivity.
  - reflexivity.
  - discriminate.
  - reflexivity.
  - reflexivity.
  - split; [apply Hskip; exact nestedProperties_matches_within | exact Hboth].
Defined.

(** Nested exponents, evaluated: one fragment when the descendants of a
    match are skipped, two when they are not. *)
Example applyInTree_nested_exponents :
  TreePatternFinder.applyInTree
    (TreePatternFinder.mkSyntaxTreePattern SampleTrees.isExponent
       TreePatternFinder.SKIP_MATCH_DESCENDANTS)
    (SyntaxTree.mkSyntaxTree SampleTrees.outerExponent)
  = [TreePatternFinder.fragmentOfNode SampleTrees.outerExponent]
  /\ TreePatternFinder.applyInTree
       (TreePatternFinder.mkSyntaxTreePattern SampleTrees.isExponent
          TreePatternFinder.continueIntoDescendants)
       (SyntaxTree.mkSyntaxTree SampleTrees.outerExponent)
     = [ TreePatternFinder.fragmentOfNode SampleTrees.outerExponent;
         TreePatternFinder.fragmentOfNode SampleTrees.innerExponent ].
Proof. split; reflexivity. Qed.

(** ** The regex template *)

Section RegexPatternTemplateFacts.

Import RegexPatternTemplate.

Variable Provider : Type.
Variable provideFragmentsWithMatchesForDocument :
  RegexPatternFinder.RegexPatternFinder -> Document -> list FragmentWithMatch.

Implicit Types (store : Store Provider) (this : RegexPatternTemplate Provider).
Implicit Types (l keysToSlots : loc) (document : Document).
Implicit Types (slotKey : TemplateSlotKey).

(** *** Finding the group of a slot key *)

Lemma findMatchingRegexGroup_Some match_ slotKey group :
  findMatchingRegexGroup match_ slotKey = Some group ->
  In group (RegexMatch.groups match_) /\ RegexGroup.name group = slotKey.
Proof.
  unfold findMatchingRegexGroup. intros H. apply find_some in H as [Hin Heq].
  split; [exact Hin | apply String.eqb_eq; exact Heq].
Qed.

Lemma findMatchingRegexGroup_is_Some match_ slotKey :
  is_Some (findMatchingRegexGroup match_ slotKey) <->
  exists group, In group (RegexMatch.groups match_) /\ RegexGroup.name group = slotKey.
Proof.
  split.
  - intros [group H]. exists group. apply findMatchingRegexGroup_Some; exact H.
  - intros (group & Hin & Heq).
    destruct (findMatchingRegexGroup match_ slotKey) as [found |] eqn:E; [eexists; reflexivity |].
    exfalso. unfold findMatchingRegexGroup in E.
    pose proof (find_none _ _ E group Hin) as Hf. simpl in Hf.
    apply String.eqb_neq in Hf. contradiction.
Qed.

(** *** The inner loop *)

(** What a slot map holds when the inner loop is over: the slots it held
    before, and one slot for each declared key that names a group. *)
Lemma slotsProvided_is_Some match_ document
    (entries : list (TemplateSlotKey * Provider))
    (slots : gmap TemplateSlotKey (TextualTemplateSlot Provider)) slotKey :
  is_Some (slotsProvided match_ document entries slots !! slotKey) <->
  is_Some (slots !! slotKey)
  \/ (In slotKey (map fst entries) /\ is_Some (findMatchingRegexGroup match_ slotKey)).
Proof.
  unfold slotsProvided. revert slots.
  induction entries as [| [key provider] entries IH]; intros slots; simpl.
  - split; [intros H; left; exact H | intros [H | [[] _]]; exact H].
  - rewrite IH. destruct (findMatchingRegexGroup match_ key) as [group |] eqn:E.
    + rewrite lookup_insert_is_Some. split.
      * intros [[-> | [_ H]] | [Hin Hfound]].
        -- right. split; [left; reflexivity | rewrite E; eexists; reflexivity].
        -- left; exact H.
        -- right. split; [right; exact Hin | exact Hfound].
      * intros [H | [[-> | Hin] Hfound]].
        -- destruct (decide (key = slotKey)) as [-> | Hne]; left; [left; reflexivity |].
           right; split; assumption.
        -- left; left; reflexivity.
        -- right; split; assumption.
    + split.
      * intros [H | [Hin Hfound]]; [left; exact H |].
        right. split; [right; exact Hin | exact Hfound].
      * intros [H | [[-> | Hin] Hfound]]; [left; exact H | |].
        -- rewrite E in Hfound. destruct Hfound as [? ?]; discriminate.
        -- right; split; assumption.
Qed.

(** Every slot the inner loop provides is bound to the first group that
    bears its key, to the document and to the key. *)
Lemma slotsProvided_bound match_ document
    (entries : list (TemplateSlotKey * Provider))
    (slots : gmap TemplateSlotKey (TextualTemplateSlot Provider)) :
  (forall slotKey slot, slots !! slotKey = Some slot -> slotBoundTo match_ document slotKey slot) ->
  forall slotKey slot,
    slotsProvided match_ document entries slots !! slotKey = Some slot ->
    slotBoundTo match_ document slotKey slot.
Proof.
  unfold slotsProvided. revert slots.
  induction entries as [| [key provider] entries IH]; intros slots Hslots; simpl.
  - exact Hslots.
  - apply IH. destruct (findMatchingRegexGroup match_ key) as [group |] eqn:E; [| exact Hslots].
    intros slotKey slot. rewrite lookup_insert.
    destruct (decide (key = slotKey)) as [-> | Hne]; [| apply Hslots].
    intros [= <-]. exists group. simpl. repeat split; try reflexivity. exact E.
Qed.

Lemma provideSlot_fragmentMaps keysToSlots match_ document store entry :
  fragmentMaps (provideSlot keysToSlots match_ document store entry) = fragmentMaps store.
Proof.
  destruct entry as [key provider]. unfold provideSlot.
  destruct (findMatchingRegexGroup match_ key); reflexivity.
Qed.

Lemma provideSlot_slotMaps_other keysToSlots match_ document store entry l :
  l <> keysToSlots ->
  slotMaps (provideSlot keysToSlots match_ document store entry) !! l = slotMaps store !! l.
Proof.
  intros Hne. destruct entry as [key provider]. unfold provideSlot.
  destruct (findMatchingRegexGroup match_ key); [| reflexivity].
  simpl. rewrite lookup_insert_ne by congruence. reflexivity.
Qed.

Lemma innerLoop_fragmentMaps keysToSlots match_ document
    (entries : list (TemplateSlotKey * Provider)) store :
  fragmentMaps (fold_left (provideSlot keysToSlots match_ document) entries store)
  = fragmentMaps store.
Proof.
  revert store. induction entries as [| entry entries IH]; intros store; simpl; [reflexivity |].
  rewrite IH. apply provideSlot_fragmentMaps.
Qed.

Lemma innerLoop_slotMaps_other keysToSlots match_ document
    (entries : list (TemplateSlotKey * Provider)) store l :
  l <> keysToSlots ->
  slotMaps (fold_left (provideSlot keysToSlots match_ document) entries store) !! l
  = slotMaps store !! l.
Proof.
  intros Hne. revert store.
  induction entries as [| entry entries IH]; intros store; simpl; [reflexivity |].
  rewrite IH. apply provideSlot_slotMaps_other; exact Hne.
Qed.

(** The inner loop leaves in the slot map what [slotsProvided] computes. *)
Lemma innerLoop_slotMaps keysToSlots match_ document
    (entries : list (TemplateSlotKey * Provider)) store
    (slots : gmap TemplateSlotKey (TextualTemplateSlot Provider)) :
  slotMaps store !! keysToSlots = Some slots ->
  slotMaps (fold_left (provideSlot keysToSlots match_ document) entries store) !! keysToSlots
  = Some (slotsProvided match_ document entries slots).
Proof.
  unfold slotsProvided. revert store slots.
  induction entries as [| [key provider] entries IH]; intros store slots Hslots; simpl.
  - exact Hslots.
  - apply IH. unfold provideSlot. simpl.
    destruct (findMatchingRegexGroup match_ key) as [group |]; [| exact Hslots].
    simpl. rewrite lookup_insert_eq. unfold slotMapAt. rewrite Hslots. reflexivity.
Qed.

(** *** The outer loop *)

Lemma fragmentMapAt_clear l store :
  fragmentMapAt (fragmentMapClear l store) l = ∅.
Proof.
  unfold fragmentMapAt, fragmentMapClear. simpl. rewrite lookup_insert_eq. reflexivity.
Qed.

Lemma provideSlotsOfFragment_fragmentMaps this document store fragmentWithMatch :
  fragmentMaps (provideSlotsOfFragment this document store fragmentWithMatch)
  = <[fragmentsToKeysToSlots this :=
        <[TextualFragment.identity (fragment fragmentWithMatch) := fresh (dom (slotMaps store))]>
          (fragmentMapAt store (fragmentsToKeysToSlots this))]>
      (fragmentMaps store).
Proof.
  unfold provideSlotsOfFragment. simpl. rewrite innerLoop_fragmentMaps. reflexivity.
Qed.

Lemma provideSlotsOfFragment_fragmentMapAt this document store fragmentWithMatch :
  fragmentMapAt (provideSlotsOfFragment this document store fragmentWithMatch)
                (fragmentsToKeysToSlots this)
  = <[TextualFragment.identity (fragment fragmentWithMatch) := fresh (dom (slotMaps store))]>
      (fragmentMapAt store (fragmentsToKeysToSlots this)).
Proof.
  unfold fragmentMapAt at 1. rewrite provideSlotsOfFragment_fragmentMaps.
  rewrite lookup_insert_eq. reflexivity.
Qed.

(** The slot maps that exist when a fragment is processed are left alone:
    the slots of the fragment go to a fresh map. *)
Lemma provideSlotsOfFragment_slotMaps_old this document store fragmentWithMatch l :
  l ∈ dom (slotMaps store) ->
  slotMaps (provideSlotsOfFragment this document store fragmentWithMatch) !! l
  = slotMaps store !! l.
Proof.
  intros Hl. unfold provideSlotsOfFragment. simpl.
  assert (Hne : l <> fresh (dom (slotMaps store))).
  { intros ->. exact (is_fresh _ Hl). }
  rewrite innerLoop_slotMaps_other by exact Hne.
  simpl. rewrite lookup_insert_ne by congruence. reflexivity.
Qed.

Lemma provideSlotsOfFragment_slotMaps_new this document store fragmentWithMatch :
  slotMaps (provideSlotsOfFragment this document store fragmentWithMatch)
    !! fresh (dom (slotMaps store))
  = Some (slotsProvided (match_ fragmentWithMatch) document (slotSpecification this) ∅).
Proof.
  unfold provideSlotsOfFragment. simpl.
  apply innerLoop_slotMaps. simpl. apply lookup_insert_eq.
Qed.

Lemma provideSlotsOfFragment_dom_slotMaps this document store fragmentWithMatch :
  dom (slotMaps store)
    ⊆ dom (slotMaps (provideSlotsOfFragment this document store fragmentWithMatch)).
Proof.
  intros l Hl. apply elem_of_dom.
  rewrite provideSlotsOfFragment_slotMaps_old by exact Hl.
  apply elem_of_dom; exact Hl.
Qed.

Lemma outerLoop_slotMaps_old this document (found : list FragmentWithMatch) store l :
  l ∈ dom (slotMaps store) ->
  slotMaps (fold_left (provideSlotsOfFragment this document) found store) !! l
  = slotMaps store !! l.
Proof.
  revert store. induction found as [| first found IH]; intros store Hl; simpl; [reflexivity |].
  rewrite IH.
  - apply provideSlotsOfFragment_slotMaps_old; exact Hl.
  - apply provideSlotsOfFragment_dom_slotMaps; exact Hl.
Qed.

Lemma outerLoop_dom_slotMaps this document (found : list FragmentWithMatch) store :
  dom (slotMaps store)
    ⊆ dom (slotMaps (fold_left (provideSlotsOfFragment this document) found store)).
Proof.
  intros l Hl. apply elem_of_dom.
  rewrite outerLoop_slotMaps_old by exact Hl.
  apply elem_of_dom; exact Hl.
Qed.

Lemma outerLoop_fragmentMaps_other this document (found : list FragmentWithMatch) store l :
  l <> fragmentsToKeysToSlots this ->
  fragmentMaps (fold_left (provideSlotsOfFragment this document) found store) !! l
  = fragmentMaps store !! l.
Proof.
  intros Hne. revert store.
  induction found as [| first found IH]; intros store; simpl; [reflexivity |].
  rewrite IH. rewrite provideSlotsOfFragment_fragmentMaps.
  rewrite lookup_insert_ne by congruence. reflexivity.
Qed.

Lemma outerLoop_allocated this document (found : list FragmentWithMatch) store :
  is_Some (fragmentMaps store !! fragmentsToKeysToSlots this) ->
  fragmentMaps (fold_left (provideSlotsOfFragment this document) found store)
    !! fragmentsToKeysToSlots this
  = Some (fragmentMapAt (fold_left (provideSlotsOfFragment this document) found store)
                        (fragmentsToKeysToSlots this)).
Proof.
  revert store. induction found as [| first found IH]; intros store Hsome; simpl.
  - unfold fragmentMapAt. destruct Hsome as [entries ->]. reflexivity.
  - apply IH. rewrite provideSlotsOfFragment_fragmentMaps, lookup_insert_eq.
    eexists; reflexivity.
Qed.

(** The keys of the mapping after the outer loop: those it had, and the
    fragments that were processed. *)
Lemma outerLoop_dom this document (found : list FragmentWithMatch) store :
  dom (fragmentMapAt (fold_left (provideSlotsOfFragment this document) found store)
                     (fragmentsToKeysToSlots this))
  = dom (fragmentMapAt store (fragmentsToKeysToSlots this))
      ∪ list_to_set (map (fun entry => TextualFragment.identity (fragment entry)) found).
Proof.
  revert store. induction found as [| first found IH]; intros store; simpl.
  - rewrite union_empty_r_L. reflexivity.
  - rewrite IH, provideSlotsOfFragment_fragmentMapAt, dom_insert_L.
    rewrite (comm_L (∪) {[_]} (dom _)), <- (assoc_L (∪)). reflexivity.
Qed.

Lemma outerLoop_lookup_other this document (found : list FragmentWithMatch) store
    (identity : nat) :
  identity ∉ map (fun entry => TextualFragment.identity (fragment entry)) found ->
  fragmentMapAt (fold_left (provideSlotsOfFragment this document) found store)
                (fragmentsToKeysToSlots this) !! identity
  = fragmentMapAt store (fragmentsToKeysToSlots this) !! identity.
Proof.
  revert store. induction found as [| first found IH]; intros store Hnot; simpl; [reflexivity |].
  simpl in Hnot. apply not_elem_of_cons in Hnot as [Hne Hnot].
  rewrite IH by exact Hnot.
  rewrite provideSlotsOfFragment_fragmentMapAt, lookup_insert_ne by congruence.
  reflexivity.
Qed.

(** Every slot map that the mapping refers to after the outer loop was
    either referred to before, or created by the loop. *)
Lemma outerLoop_values_fresh this document (found : list FragmentWithMatch) store
    (identity : nat) l :
  fragmentMapAt (fold_left (provideSlotsOfFragment this document) found store)
                (fragmentsToKeysToSlots this) !! identity = Some l ->
  fragmentMapAt store (fragmentsToKeysToSlots this) !! identity = Some l
  \/ l ∉ dom (slotMaps store).
Proof.
  revert store. induction found as [| first found IH]; intros store; simpl; [left; assumption |].
  intros H. apply IH in H as [H | H].
  - rewrite provideSlotsOfFragment_fragmentMapAt, lookup_insert in H.
    destruct (decide (TextualFragment.identity (fragment first) = identity)) as [_ | _].
    + injection H as <-. right. apply is_fresh.
    + left; exact H.
  - right. intros Hl. apply H. apply provideSlotsOfFragment_dom_slotMaps; exact Hl.
Qed.

(** When the fragments are distinct objects, each of them is mapped, after
    the outer loop, to a slot map that holds what the inner loop provided
    for its match. *)
Lemma outerLoop_slots this document (found : list FragmentWithMatch) store
    (fragmentWithMatch : FragmentWithMatch) :
  NoDup (map (fun entry => TextualFragment.identity (fragment entry)) found) ->
  In fragmentWithMatch found ->
  exists l,
    fragmentMapAt (fold_left (provideSlotsOfFragment this document) found store)
                  (fragmentsToKeysToSlots this)
      !! TextualFragment.identity (fragment fragmentWithMatch) = Some l
    /\ slotMaps (fold_left (provideSlotsOfFragment this document) found store) !! l
       = Some (slotsProvided (match_ fragmentWithMatch) document (slotSpecification this) ∅).
Proof.
  revert store. induction found as [| first found IH]; intros store Hdistinct Hin; [destruct Hin |].
  simpl in Hdistinct. apply NoDup_cons in Hdistinct as [Hfirst Hdistinct].
  simpl. destruct Hin as [-> | Hin].
  - exists (fresh (dom (slotMaps store))). split.
    + rewrite outerLoop_lookup_other by exact Hfirst.
      rewrite provideSlotsOfFragment_fragmentMapAt. apply lookup_insert_eq.
    + rewrite outerLoop_slotMaps_old.
      * apply provideSlotsOfFragment_slotMaps_new.
      * apply elem_of_dom. rewrite provideSlotsOfFragment_slotMaps_new. eexists; reflexivity.
  - apply IH; assumption.
Qed.

(** Every slot map that the mapping refers to after the outer loop was
    referred to before, or exists in the store the loop leaves. *)
Lemma outerLoop_values_allocated this document (found : list FragmentWithMatch) store
    (identity : nat) l :
  fragmentMapAt (fold_left (provideSlotsOfFragment this document) found store)
                (fragmentsToKeysToSlots this) !! identity = Some l ->
  fragmentMapAt store (fragmentsToKeysToSlots this) !! identity = Some l
  \/ l ∈ dom (slotMaps (fold_left (provideSlotsOfFragment this document) found store)).
Proof.
  revert store. induction found as [| first found IH]; intros store; simpl; [left; assumption |].
  intros H. apply IH in H as [H | H]; [| right; exact H].
  rewrite provideSlotsOfFragment_fragmentMapAt, lookup_insert in H.
  destruct (decide (TextualFragment.identity (fragment first) = identity)) as [_ | _].
  - injection H as <-. right. apply outerLoop_dom_slotMaps.
    apply elem_of_dom. rewrite provideSlotsOfFragment_slotMaps_new. eexists; reflexivity.
  - left; exact H.
Qed.

(** The keys of the mapping after a pass are the returned fragments. *)
Lemma provideFragmentsForDocument_dom this document store :
  dom (fragmentMapAt
         (snd (provideFragmentsForDocument provideFragmentsWithMatchesForDocument
                 this document store))
         (fragmentsToKeysToSlots this))
  = list_to_set
      (map TextualFragment.identity
           (fst (provideFragmentsForDocument provideFragmentsWithMatchesForDocument
                   this document store))).
Proof.
  unfold provideFragmentsForDocument. simpl.
  rewrite outerLoop_dom, fragmentMapAt_clear, dom_empty_L, union_empty_l_L.
  rewrite map_map. reflexivity.
Qed.

End RegexPatternTemplateFacts.

(** *** The method [provideFragmentsForDocument] *)

(** C10. After [provideFragmentsForDocument], the keys of the template's
    mapping from fragments to slot maps are exactly the fragments that the
    call returned: each returned fragment has a slot map (an empty one when no
    declared key named a group), and no other fragment, of an earlier pass or
    not, has one. *)
Theorem provideFragmentsForDocument_keys
    (Provider : Type)
    (provideFragmentsWithMatchesForDocument :
       RegexPatternFinder.RegexPatternFinder -> Document ->
       list RegexPatternTemplate.FragmentWithMatch)
    (this : RegexPatternTemplate.RegexPatternTemplate Provider)
    (document : Document) (store : RegexPatternTemplate.Store Provider) :
  let result :=
    RegexPatternTemplate.provideFragmentsForDocument
      provideFragmentsWithMatchesForDocument this document store in
  dom (RegexPatternTemplate.fragmentMapAt (snd result)
         (RegexPatternTemplate.fragmentsToKeysToSlots this))
  = list_to_set (map TextualFragment.identity (fst result))
  /\ (forall fragment : TextualFragment,
        In fragment (fst result) ->
        is_Some (RegexPatternTemplate.slotsOfFragment this (snd result) fragment))
  /\ (forall fragment : TextualFragment,
        ~ In (TextualFragment.identity fragment) (map TextualFragment.identity (fst result)) ->
        RegexPatternTemplate.slotsOfFragment this (snd result) fragment = None).
Proof.
  intros result.
  assert (Hdom :
            dom (RegexPatternTemplate.fragmentMapAt (snd result)
                   (RegexPatternTemplate.fragmentsToKeysToSlots this))
            = list_to_set (map TextualFragment.identity (fst result)))
    by apply provideFragmentsForDocument_dom.
  split; [exact Hdom |]. split.
  - intros fragment Hin. unfold RegexPatternTemplate.slotsOfFragment.
    assert (Hkey : TextualFragment.identity fragment
                     ∈ dom (RegexPatternTemplate.fragmentMapAt (snd result)
                              (RegexPatternTemplate.fragmentsToKeysToSlots this))).
    { rewrite Hdom. apply elem_of_list_to_set, list_elem_of_In, in_map. exact Hin. }
    apply elem_of_dom in Hkey as [keysToSlots ->]. eexists; reflexivity.
  - intros fragment Hnot. unfold RegexPatternTemplate.slotsOfFragment.
    assert (Hkey : TextualFragment.identity fragment
                     ∉ dom (RegexPatternTemplate.fragmentMapAt (snd result)
                              (RegexPatternTemplate.fragmentsToKeysToSlots this))).
    { rewrite Hdom. intros H. apply Hnot.
      apply list_elem_of_In. apply elem_of_list_to_set in H. exact H. }
    apply not_elem_of_dom in Hkey. rewrite Hkey. reflexivity.
Qed.

(** C1. After [provideFragmentsForDocument], in the slot map of each
    returned fragment (the fragments being distinct objects), a slot key is
    present exactly when it is declared in the slot specification and a group
    of the fragment's match bears that name; a declared key without such a
    group is absent. The method always returns, and the slots it made are
    bound to the group, the document and the key. *)
Theorem provideFragmentsForDocument_slots
    (Provider : Type)
    (provideFragmentsWithMatchesForDocument :
       RegexPatternFinder.RegexPatternFinder -> Document ->
       list RegexPatternTemplate.FragmentWithMatch)
    (this : RegexPatternTemplate.RegexPatternTemplate Provider)
    (document : Document) (store : RegexPatternTemplate.Store Provider)
    (fragmentWithMatch : RegexPatternTemplate.FragmentWithMatch) :
  let fragmentsWithMatches :=
    provideFragmentsWithMatchesForDocument
      (RegexPatternTemplate.regexPatternFinder this) document in
  let result :=
    RegexPatternTemplate.provideFragmentsForDocument
      provideFragmentsWithMatchesForDocument this document store in
  NoDup (map (fun entry => TextualFragment.identity (RegexPatternTemplate.fragment entry))
             fragmentsWithMatches) ->
  In fragmentWithMatch fragmentsWithMatches ->
  exists slots,
    RegexPatternTemplate.slotsOfFragment this (snd result)
      (RegexPatternTemplate.fragment fragmentWithMatch) = Some slots
    /\ (forall slotKey : string,
          is_Some (slots !! slotKey) <->
          (In slotKey (map fst (RegexPatternTemplate.slotSpecification this))
           /\ exists group,
               In group (RegexMatch.groups (RegexPatternTemplate.match_ fragmentWithMatch))
               /\ RegexGroup.name group = slotKey))
    /\ (forall (slotKey : string) slot,
          slots !! slotKey = Some slot ->
          RegexPatternTemplate.slotBoundTo
            (RegexPatternTemplate.match_ fragmentWithMatch) document slotKey slot).
Proof.
  intros fragmentsWithMatches result Hdistinct Hin.
  subst result. unfold RegexPatternTemplate.provideFragmentsForDocument. simpl.
  fold fragmentsWithMatches.
  destruct (outerLoop_slots Provider this document fragmentsWithMatches
              (RegexPatternTemplate.fragmentMapClear
                 (RegexPatternTemplate.fragmentsToKeysToSlots this) store)
              fragmentWithMatch Hdistinct Hin) as (keysToSlots & Hkey & Hslots).
  exists (RegexPatternTemplate.slotsProvided
            (RegexPatternTemplate.match_ fragmentWithMatch) document
            (RegexPatternTemplate.slotSpecification this) ∅).
  split; [| split].
  - unfold RegexPatternTemplate.slotsOfFragment. rewrite Hkey.
    unfold RegexPatternTemplate.slotMapAt. rewrite Hslots. reflexivity.
  - intros slotKey. rewrite slotsProvided_is_Some.
    rewrite lookup_empty, is_Some_alt, findMatchingRegexGroup_is_Some. tauto.
  - apply slotsProvided_bound. intros slotKey slot. rewrite lookup_empty. discriminate.
Qed.

Lemma pixelLengths_distinct :
  NoDup (map (fun entry => TextualFragment.identity (RegexPatternTemplate.fragment entry))
             (PixelLengths.pixelLengthsIn
                (RegexPatternTemplate.regexPatternFinder PixelLengths.template)
                PixelLengths.styleSheet)).
Proof.
  vm_compute. apply NoDup_cons. split; [| apply NoDup_singleton].
  intros H%list_elem_of_In. destruct H as [H | []]. discriminate.
Qed.

(** An instance of C1: the width in the style sheet. Its slot map holds
    [num] and does not hold [unit]. *)
Lemma provideFragmentsForDocument_slots_witness :
  exists slots,
    RegexPatternTemplate.slotsOfFragment PixelLengths.template
      PixelLengths.storeAfterFirstPass
      (RegexPatternTemplate.fragment PixelLengths.widthMatch) = Some slots
    /\ (forall slotKey : string,
          is_Some (slots !! slotKey) <->
          (In slotKey (map fst (RegexPatternTemplate.slotSpecification PixelLengths.template))
           /\ exists group,
               In group (RegexMatch.groups (RegexPatternTemplate.match_ PixelLengths.widthMatch))
               /\ RegexGroup.name group = slotKey))
    /\ (forall (slotKey : string) slot,
          slots !! slotKey = Some slot ->
          RegexPatternTemplate.slotBoundTo
            (RegexPatternTemplate.match_ PixelLengths.widthMatch)
            PixelLengths.styleSheet slotKey slot).
Proof.
  apply (provideFragmentsForDocument_slots PixelLengths.ValuatorProvider
           PixelLengths.pixelLengthsIn PixelLengths.template PixelLengths.styleSheet
           PixelLengths.storeAtCreation PixelLengths.widthMatch).
  - exact pixelLengths_distinct.
  - left. reflexivity.
Defined.

(** C6, as the method has it. A pass clears the template's mapping and
    refills it in the same [Map] object: no other mapping from fragments is
    created or changed, the object of the field [fragmentsToKeysToSlots]
    holds, after the pass, the rebuilt mapping (its keys are the returned
    fragments, whatever it held before), the slot maps that existed before
    the pass are left as they were, and the slot maps the mapping refers to
    are new ones. *)
Theorem provideFragmentsForDocument_rebuilds_in_place
    (Provider : Type)
    (provideFragmentsWithMatchesForDocument :
       RegexPatternFinder.RegexPatternFinder -> Document ->
       list RegexPatternTemplate.FragmentWithMatch)
    (this : RegexPatternTemplate.RegexPatternTemplate Provider)
    (document : Document) (store : RegexPatternTemplate.Store Provider) :
  let result :=
    RegexPatternTemplate.provideFragmentsForDocument
      provideFragmentsWithMatchesForDocument this document store in
  let mapping := RegexPatternTemplate.fragmentsToKeysToSlots this in
  dom (RegexPatternTemplate.fragmentMaps (snd result))
    = {[mapping]} ∪ dom (RegexPatternTemplate.fragmentMaps store)
  /\ (forall l, l <> mapping ->
        RegexPatternTemplate.fragmentMaps (snd result) !! l
        = RegexPatternTemplate.fragmentMaps store !! l)
  /\ (exists entries,
        RegexPatternTemplate.fragmentMaps (snd result) !! mapping = Some entries
        /\ dom entries = list_to_set (map TextualFragment.identity (fst result)))
  /\ (forall l, l ∈ dom (RegexPatternTemplate.slotMaps store) ->
        RegexPatternTemplate.slotMaps (snd result) !! l
        = RegexPatternTemplate.slotMaps store !! l)
  /\ (forall (identity : nat) keysToSlots,
        RegexPatternTemplate.fragmentMapAt (snd result) mapping !! identity = Some keysToSlots ->
        (keysToSlots ∉ dom (RegexPatternTemplate.slotMaps store))
        /\ (keysToSlots ∈ dom (RegexPatternTemplate.slotMaps (snd result)))).
Proof.
  intros result mapping.
  set (cleared := RegexPatternTemplate.fragmentMapClear mapping store).
  assert (Hcleared : RegexPatternTemplate.fragmentMaps cleared !! mapping = Some ∅)
    by apply lookup_insert_eq.
  assert (Hallocated :
            RegexPatternTemplate.fragmentMaps (snd result) !! mapping
            = Some (RegexPatternTemplate.fragmentMapAt (snd result) mapping)).
  { subst result. unfold RegexPatternTemplate.provideFragmentsForDocument. simpl.
    apply outerLoop_allocated. fold mapping. fold cleared. rewrite Hcleared.
    eexists; reflexivity. }
  assert (Hother : forall l, l <> mapping ->
             RegexPatternTemplate.fragmentMaps (snd result) !! l
             = RegexPatternTemplate.fragmentMaps store !! l).
  { intros l Hne. subst result. unfold RegexPatternTemplate.provideFragmentsForDocument. simpl.
    rewrite outerLoop_fragmentMaps_other by exact Hne.
    simpl. rewrite lookup_insert_ne by (intros Heq; apply Hne; symmetry; exact Heq).
    reflexivity. }
  split; [| split; [exact Hother | split; [| split]]].
  - apply set_eq. intros l. rewrite elem_of_union, elem_of_singleton, !elem_of_dom.
    destruct (decide (l = mapping)) as [-> | Hne].
    + rewrite Hallocated. split; [left; reflexivity | eexists; reflexivity].
    + rewrite Hother by exact Hne. split; [right; assumption | intros [? | ?]; [contradiction | assumption]].
  - exists (RegexPatternTemplate.fragmentMapAt (snd result) mapping).
    split; [exact Hallocated |].
    apply (provideFragmentsForDocument_dom Provider provideFragmentsWithMatchesForDocument).
  - intros l Hl. subst result. unfold RegexPatternTemplate.provideFragmentsForDocument. simpl.
    rewrite outerLoop_slotMaps_old by exact Hl. reflexivity.
  - intros identity keysToSlots Hkey. subst result.
    unfold RegexPatternTemplate.provideFragmentsForDocument in *. simpl in *.
    split.
    + apply outerLoop_values_fresh in Hkey as [Hkey | Hfresh]; [| exact Hfresh].
      rewrite fragmentMapAt_clear, lookup_empty in Hkey. discriminate.
    + apply outerLoop_values_allocated in Hkey as [Hkey | Hallocated']; [| exact Hallocated'].
      rewrite fragmentMapAt_clear, lookup_empty in Hkey. discriminate.
Qed.

(** The claim of C6 as it is written fails. After a first pass over the
    style sheet the template's mapping holds the two fragments; a second pass,
    over the emptied document, leaves the very same [Map] object empty: the
    object that existed before the pass was mutated in place, and a holder of
    the mapping of the first pass reads the emptied one through it. *)
Lemma provideFragmentsForDocument_mutates_mapping :
  dom (RegexPatternTemplate.fragmentMapAt PixelLengths.storeAfterFirstPass
         (RegexPatternTemplate.fragmentsToKeysToSlots PixelLengths.template))
    = {[1%nat; 2%nat]}
  /\ RegexPatternTemplate.fragmentMaps PixelLengths.storeAfterSecondPass
       !! RegexPatternTemplate.fragmentsToKeysToSlots PixelLengths.template
     = Some ∅
  /\ RegexPatternTemplate.fragmentMaps PixelLengths.storeAfterSecondPass
       !! RegexPatternTemplate.fragmentsToKeysToSlots PixelLengths.template
     <> RegexPatternTemplate.fragmentMaps PixelLengths.storeAfterFirstPass
          !! RegexPatternTemplate.fragmentsToKeysToSlots PixelLengths.template
  /\ dom (RegexPatternTemplate.fragmentMaps PixelLengths.storeAfterSecondPass)
     = dom (RegexPatternTemplate.fragmentMaps PixelLengths.storeAfterFirstPass).
Proof.
  split; [| split; [| split]].
  - vm_compute. reflexivity.
  - vm_compute. reflexivity.
  - vm_compute. discriminate.
  - vm_compute. reflexivity.
Qed.

(** The first pass over the style sheet, evaluated: the width fragment has
    the slot [num], bound to the text [10], and no slot [unit]. *)
Example provideFragmentsForDocument_styleSheet :
  fst (RegexPatternTemplate.provideFragmentsForDocument PixelLengths.pixelLengthsIn
         PixelLengths.template PixelLengths.styleSheet PixelLengths.storeAtCreation)
    = [ RegexPatternTemplate.fragment PixelLengths.widthMatch;
        RegexPatternTemplate.fragment PixelLengths.heightMatch ]
  /\ (RegexPatternTemplate.slotsOfFragment PixelLengths.template
        PixelLengths.storeAfterFirstPass
        (RegexPatternTemplate.fragment PixelLengths.widthMatch)
        ≫= (fun slots => slots !! "num"))
     = Some (TextualTemplateSlot.mkTextualTemplateSlot
               "10" (PixelLengths.span 7 9) PixelLengths.styleSheet "num"
               PixelLengths.NumericValuator)
  /\ (RegexPatternTemplate.slotsOfFragment PixelLengths.template
        PixelLengths.storeAfterFirstPass
        (RegexPatternTemplate.fragment PixelLengths.widthMatch)
        ≫= (fun slots => slots !! "unit"))
     = None.
Proof.
  repeat split; vm_compute; reflexivity.
Qed.

(* ===================================================================== *)
(** * Further properties of the code *)
(* ===================================================================== *)

(** ** Maps in insertion order *)

Section JsMapFacts.

Context {K V : Type} `{EqDecision K}.

Implicit Types (entries : list (K * V)) (key : K) (value : V).

Lemma JsMap_get_set key value entries key' :
  JsMap.get key' (JsMap.set key value entries)
  = if decide (key = key') then Some value else JsMap.get key' entries.
Proof.
  induction entries as [| [k v] rest IH]; simpl.
  - destruct (decide (key = key')); reflexivity.
  - destruct (decide (k = key)) as [-> | Hne]; simpl.
    + destruct (decide (key = key')); reflexivity.
    + destruct (decide (k = key')) as [-> | Hne'].
      * destruct (decide (key = key')); [congruence | reflexivity].
      * exact IH.
Qed.

Lemma JsMap_get_None_keys key entries :
  JsMap.get key entries = None <-> ~ In key (JsMap.keys entries).
Proof.
  induction entries as [| [k v] rest IH]; simpl.
  - tauto.
  - destruct (decide (k = key)) as [-> | Hne].
    + split; [discriminate | intros Hnot; exfalso; apply Hnot; left; reflexivity].
    + rewrite IH. tauto.
Qed.

Lemma JsMap_set_fresh key value entries :
  ~ In key (JsMap.keys entries) ->
  JsMap.set key value entries = entries ++ [(key, value)].
Proof.
  induction entries as [| [k v] rest IH]; simpl; intros Hnot; [reflexivity |].
  destruct (decide (k = key)) as [-> | Hne]; [tauto |].
  rewrite IH by tauto. reflexivity.
Qed.

Lemma JsMap_keys_set key value entries :
  JsMap.keys (JsMap.set key value entries)
  = if JsMap.has key entries then JsMap.keys entries else JsMap.keys entries ++ [key].
Proof.
  unfold JsMap.has. induction entries as [| [k v] rest IH]; simpl; [reflexivity |].
  destruct (decide (k = key)) as [-> | Hne]; simpl; [reflexivity |].
  rewrite IH. destruct (JsMap.get key rest); reflexivity.
Qed.

Lemma JsMap_keys_set_NoDup key value entries :
  NoDup (JsMap.keys entries) -> NoDup (JsMap.keys (JsMap.set key value entries)).
Proof.
  intros Hnodup. rewrite JsMap_keys_set. unfold JsMap.has.
  destruct (JsMap.get key entries) eqn:E; [exact Hnodup |].
  apply JsMap_get_None_keys in E.
  apply NoDup_app. split; [exact Hnodup |]. split; [| apply NoDup_singleton].
  intros k Hk Hk'. apply list_elem_of_singleton in Hk'. subst k.
  apply E. apply list_elem_of_In. exact Hk.
Qed.

Lemma JsMap_set_In key value entries key' value' :
  In (key', value') (JsMap.set key value entries) ->
  (key', value') = (key, value) \/ In (key', value') entries.
Proof.
  induction entries as [| [k v] rest IH]; simpl.
  - intros [H | []]. left; symmetry; exact H.
  - destruct (decide (k = key)) as [-> | Hne]; simpl.
    + intros [H | H]; [left; symmetry; exact H | right; right; exact H].
    + intros [H | H]; [right; left; exact H |].
      destruct (IH H) as [H' | H']; [left; exact H' | right; right; exact H'].
Qed.

End JsMapFacts.

(** ** The environment provider of the Visual Studio Code editor *)

Section VisualStudioCodeEditorFacts.

Import VisualStudioCodeEditor.

Context {RuntimeRequestId : Type} `{EqDecision RuntimeRequestId}.
Context {RawRuntimeRequest RawRuntimeResponse RuntimeResponse : Type}.
Variable requestId : RawRuntimeResponse -> RuntimeRequestId.
Variable fromRawResponse : RawRuntimeResponse -> string -> Z -> RuntimeResponse.

Local Abbreviation Request := (@RuntimeRequest RuntimeRequestId RawRuntimeRequest).
Local Abbreviation Monocle' := (@Monocle RuntimeRequestId RawRuntimeRequest).
Local Abbreviation Table := (@RequestTable RuntimeRequestId RawRuntimeRequest).

(** The table built from a list of requests, each with its monocle. *)
Let register (table : Table) (entry : Monocle' * Request) : Table :=
  JsMap.set (id (snd entry)) entry table.

Lemma remap_as_fold (monocles : list Monocle') (table : Table) :
  remapRuntimeRequestIdsToMonoclesAndRequests monocles table
  = fold_left register (monoclesAndRequests monocles) [].
Proof.
  unfold remapRuntimeRequestIdsToMonoclesAndRequests, monoclesAndRequests.
  generalize (@nil (RuntimeRequestId * (Monocle' * Request))) as start.
  induction monocles as [| monocle monocles IH]; intros start; simpl; [reflexivity |].
  rewrite fold_left_app, IH. f_equal.
  generalize start. clear.
  induction (runtimeRequests monocle) as [| request requests IH]; intros start; simpl;
    [reflexivity | apply IH].
Qed.

Lemma registered_get (entries : list (Monocle' * Request)) (table : Table)
    (i : RuntimeRequestId) :
  JsMap.get i (fold_left register entries table)
  = match find (fun entry => bool_decide (id (snd entry) = i)) (rev entries) with
    | Some entry => Some entry
    | None => JsMap.get i table
    end.
Proof.
  induction entries as [| entry entries IH] using rev_ind; simpl; [reflexivity |].
  rewrite fold_left_app, rev_app_distr. simpl.
  unfold register at 1. rewrite JsMap_get_set.
  destruct (decide (id (snd entry) = i)) as [Heq | Hne].
  - rewrite bool_decide_eq_true_2 by exact Heq. reflexivity.
  - rewrite bool_decide_eq_false_2 by exact Hne. exact IH.
Qed.

Lemma registered_keys_NoDup (entries : list (Monocle' * Request)) (table : Table) :
  NoDup (JsMap.keys table) -> NoDup (JsMap.keys (fold_left register entries table)).
Proof.
  revert table. induction entries as [| entry entries IH]; intros table Hnodup; simpl;
    [exact Hnodup |].
  apply IH. apply JsMap_keys_set_NoDup. exact Hnodup.
Qed.

(** Every entry of the table is filed under the identifier of its request,
    and comes from the list. *)
Lemma registered_entries (entries : list (Monocle' * Request)) (table : Table) :
  (forall key entry, In (key, entry) table -> key = id (snd entry)) ->
  forall key entry,
    In (key, entry) (fold_left register entries table) ->
    key = id (snd entry) /\ (In entry entries \/ In (key, entry) table).
Proof.
  revert table. induction entries as [| first entries IH]; intros table Hkeys key entry; simpl.
  - intros Hin. split; [apply Hkeys; exact Hin | right; exact Hin].
  - intros Hin. apply IH in Hin.
    + destruct Hin as [Hkey [Hin | Hin]]; split; try exact Hkey.
      * left; right; exact Hin.
      * apply JsMap_set_In in Hin as [[= _ ->] | Hin]; [left; left; reflexivity | right; exact Hin].
    + intros key' entry' Hin'.
      apply JsMap_set_In in Hin' as [[= -> ->] | Hin']; [reflexivity | apply Hkeys; exact Hin'].
Qed.

Lemma registered_distinct (entries : list (Monocle' * Request)) (table : Table) :
  NoDup (JsMap.keys table ++ map (fun entry => id (snd entry)) entries) ->
  fold_left register entries table
  = table ++ map (fun entry => (id (snd entry), entry)) entries.
Proof.
  revert table. induction entries as [| entry entries IH]; intros table Hnodup; simpl.
  - rewrite app_nil_r. reflexivity.
  - assert (Hfresh : ~ In (id (snd entry)) (JsMap.keys table)).
    { apply NoDup_app in Hnodup as (_ & Hdisjoint & _).
      intros Hin%list_elem_of_In. apply (Hdisjoint _ Hin). left. }
    unfold register at 2. rewrite JsMap_set_fresh by exact Hfresh.
    rewrite IH.
    + rewrite <- app_assoc. reflexivity.
    + unfold JsMap.keys in *. rewrite map_app. simpl. rewrite <- app_assoc. exact Hnodup.
Qed.

Lemma monoclesAndRequests_In (monocles : list Monocle') (monocle : Monocle') (request : Request) :
  In (monocle, request) (monoclesAndRequests monocles)
  <-> In monocle monocles /\ In request (runtimeRequests monocle).
Proof.
  unfold monoclesAndRequests. rewrite in_flat_map. split.
  - intros (m & Hm & Hin). apply in_map_iff in Hin as (r & [= -> ->] & Hr). split; assumption.
  - intros [Hm Hr]. exists monocle. split; [exact Hm |]. apply in_map. exact Hr.
Qed.

Lemma monoclesAndRequests_requests (monocles : list Monocle') :
  map snd (monoclesAndRequests monocles) = flat_map runtimeRequests monocles.
Proof.
  unfold monoclesAndRequests.
  induction monocles as [| monocle monocles IH]; simpl; [reflexivity |].
  rewrite map_app, IH, map_map. simpl. rewrite map_id. reflexivity.
Qed.

Lemma remap_get (monocles : list Monocle') (table : Table) (i : RuntimeRequestId) :
  JsMap.get i (remapRuntimeRequestIdsToMonoclesAndRequests monocles table)
  = find (fun entry => bool_decide (id (snd entry) = i)) (rev (monoclesAndRequests monocles)).
Proof.
  rewrite remap_as_fold, registered_get. simpl.
  destruct (find _ _); reflexivity.
Qed.

(** After [remapRuntimeRequestIdsToMonoclesAndRequests], the table maps a
    request identifier to the last request that bears it, in the order of
    the monocles and of their requests, with the monocle of that request;
    what the table held before plays no role. *)
Theorem remap_lookup (monocles : list Monocle') (table : Table) (i : RuntimeRequestId) :
  JsMap.get i (remapRuntimeRequestIdsToMonoclesAndRequests monocles table)
  = find (fun entry => bool_decide (id (snd entry) = i)) (rev (monoclesAndRequests monocles))
  /\ (JsMap.has i (remapRuntimeRequestIdsToMonoclesAndRequests monocles table) = true <->
      exists monocle request,
        In monocle monocles /\ In request (runtimeRequests monocle) /\ id request = i).
Proof.
  split; [apply remap_get |].
  unfold JsMap.has. rewrite remap_get.
  destruct (find _ _) as [[monocle request] |] eqn:E.
  - split; [intros _ | reflexivity].
    apply find_some in E as [Hin Hid]. apply in_rev in Hin.
    apply monoclesAndRequests_In in Hin as [Hmonocle Hrequest].
    exists monocle, request. repeat split; try assumption.
    apply bool_decide_eq_true in Hid. exact Hid.
  - split; [discriminate |]. intros (monocle & request & Hmonocle & Hrequest & Hid).
    pose proof (find_none _ _ E (monocle, request)) as Hnone. simpl in Hnone.
    rewrite bool_decide_eq_true_2 in Hnone by exact Hid.
    symmetry. apply Hnone. apply in_rev. rewrite rev_involutive.
    apply monoclesAndRequests_In. split; assumption.
Qed.

(** The requests that the provider lists after a remap bear pairwise
    distinct identifiers, each of them is a request of one of the monocles,
    and every identifier of a request of a monocle is among theirs. *)
Theorem remap_runtimeRequests (monocles : list Monocle') (table : Table) :
  let requests :=
    getRuntimeRequests (remapRuntimeRequestIdsToMonoclesAndRequests monocles table) in
  NoDup (map id requests)
  /\ (forall request, In request requests ->
        exists monocle, In monocle monocles /\ In request (runtimeRequests monocle))
  /\ (forall monocle request,
        In monocle monocles -> In request (runtimeRequests monocle) ->
        In (id request) (map id requests)).
Proof.
  intros requests. subst requests. rewrite remap_as_fold.
  set (entries := monoclesAndRequests monocles).
  pose proof (registered_entries entries [] (fun _ _ (H : In _ []) => match H with end))
    as Hentries.
  assert (Hids : map id (getRuntimeRequests (fold_left register entries []))
                 = JsMap.keys (fold_left register entries [])).
  { unfold getRuntimeRequests, JsMap.values, JsMap.keys. rewrite !map_map.
    apply map_ext_in. intros [key entry] Hin. simpl.
    symmetry. apply (Hentries key entry Hin). }
  split; [| split].
  - rewrite Hids. apply registered_keys_NoDup. constructor.
  - intros request Hin. unfold getRuntimeRequests, JsMap.values in Hin.
    rewrite map_map in Hin. apply in_map_iff in Hin as ([key [monocle request']] & Heq & Hin).
    simpl in Heq. subst request'.
    destruct (Hentries _ _ Hin) as [_ [Hin' | []]].
    exists monocle. apply monoclesAndRequests_In. exact Hin'.
  - intros monocle request Hmonocle Hrequest. rewrite Hids.
    destruct (JsMap.get (id request) (fold_left register entries [])) eqn:E.
    + destruct (in_dec (fun a b => decide (a = b)) (id request)
                  (JsMap.keys (fold_left register entries []))) as [Hin | Hnot]; [exact Hin |].
      apply JsMap_get_None_keys in Hnot. congruence.
    + exfalso. rewrite registered_get in E. simpl in E.
      destruct (find _ (rev entries)) eqn:F; [discriminate |].
      pose proof (find_none _ _ F (monocle, request)) as Hnone. simpl in Hnone.
      rewrite bool_decide_eq_true_2 in Hnone by reflexivity.
      assert (true = false) as Habsurd; [| discriminate].
      apply Hnone. apply in_rev. rewrite rev_involutive.
      apply monoclesAndRequests_In. split; assumption.
Qed.

(** When no two requests of the monocles share an identifier, the provider
    lists all the requests of all the monocles, in order. *)
Theorem remap_runtimeRequests_distinct (monocles : list Monocle') (table : Table) :
  NoDup (map id (flat_map runtimeRequests monocles)) ->
  getRuntimeRequests (remapRuntimeRequestIdsToMonoclesAndRequests monocles table)
  = flat_map runtimeRequests monocles.
Proof.
  intros Hnodup. rewrite remap_as_fold, registered_distinct.
  - simpl. unfold getRuntimeRequests, JsMap.values. rewrite !map_map. simpl.
    rewrite <- monoclesAndRequests_requests. reflexivity.
  - simpl. rewrite <- monoclesAndRequests_requests, map_map in Hnodup. exact Hnodup.
Qed.

(** After a remap, a raw response is dispatched exactly once, to the monocle
    of the last request that bears its request identifier, as the response
    built with the name of that request; when no request of a monocle bears
    the identifier, the response is dropped with a warning and no monocle is
    given anything. *)
Theorem processRawRuntimeResponse_after_remap (monocles : list Monocle') (table : Table)
    (rawResponse : RawRuntimeResponse) (receptionTime : Z) :
  processRawRuntimeResponse requestId fromRawResponse
    rawResponse receptionTime
    (remapRuntimeRequestIdsToMonoclesAndRequests monocles table)
  = match find (fun entry => bool_decide (id (snd entry) = requestId rawResponse))
               (rev (monoclesAndRequests monocles)) with
    | Some (monocle, request) =>
        [ queueRuntimeResponse monocle
            (fromRawResponse rawResponse (name request) receptionTime);
          consoleInfo ]
    | None => [consoleWarn]
    end.
Proof.
  unfold processRawRuntimeResponse, JsMap.has. rewrite remap_get.
  destruct (find _ _) as [[monocle request] |]; reflexivity.
Qed.


(** Case analysis on the membership of an effect in an explicit list. *)
Ltac in_list H :=
  simpl in H;
  repeat match type of H with _ \/ _ => destruct H as [H | H] end;
  try contradiction; simplify_eq.

(** [onEnvironmentDidChange] only sends messages. It sends the list of the
    runtime requests exactly when the monocles have changed, as its last
    message, after it has remapped the table; the table is left as it was
    otherwise. A message about the document carries the language identifier
    and the content of the document of the state. *)
Theorem onEnvironmentDidChange_messages (sameLanguage : Language -> Language -> bool)
    (environmentChanges : @EnvironmentChanges RuntimeRequestId RawRuntimeRequest)
    (stateDocument : Document) (table : Table) :
  let result :=
    onEnvironmentDidChange (RuntimeResponse := RuntimeResponse) sameLanguage
      environmentChanges stateDocument table in
  (forall effect, In effect (snd result) -> exists message, effect = sendMessage message)
  /\ (forall requests,
        In (sendMessage (SetRuntimeRequests requests)) (snd result) <->
        exists changedMonocles,
          monocles environmentChanges = Some changedMonocles
          /\ requests
             = getRawRuntimeRequests
                 (remapRuntimeRequestIdsToMonoclesAndRequests changedMonocles table))
  /\ fst result
     = match monocles environmentChanges with
       | Some changedMonocles => remapRuntimeRequestIdsToMonoclesAndRequests changedMonocles table
       | None => table
       end
  /\ (forall languageId content,
        In (sendMessage (SetDocument languageId content)) (snd result) ->
        languageId = Language.id (Document.language stateDocument)
        /\ content = Document.content stateDocument)
  /\ (forall content,
        In (sendMessage (SetContent content)) (snd result) ->
        content = Document.content stateDocument)
  /\ (document environmentChanges = None -> monocles environmentChanges = None ->
      snd result = []).
Proof.
  intros result. subst result. unfold onEnvironmentDidChange.
  destruct environmentChanges as [[changedDocument |] [changedMonocles |]]; simpl;
    try destruct (sameLanguage (Document.language changedDocument)
                               (Document.language stateDocument));
    simpl.
  all: split; [intros effect Hin; in_list Hin; eexists; reflexivity |].
  all: split;
    [intros requests; split;
       [intros Hin; in_list Hin; eexists; split; reflexivity
       | intros (ms & Heq & ->); try discriminate; injection Heq as <-; simpl; tauto] |].
  all: split; [reflexivity |].
  all: split; [intros languageId content Hin; in_list Hin; split; reflexivity |].
  all: split; [intros content Hin; in_list Hin; reflexivity |].
  all: intros; try discriminate; reflexivity.
Qed.

End VisualStudioCodeEditorFacts.

(** The [set-document] handler sets a document exactly when a supported
    language bears the identifier of the message: the new document has a
    supported language with that identifier and the content of the message.
    Otherwise it warns and sets nothing. *)
Theorem handleSetDocument_sets_known_language
    (TYPESCRIPT_LANGUAGE MATHEMATICS_LANGUAGE JSON_LANGUAGE
     CSS_LANGUAGE PLAIN_TEXT_LANGUAGE : Language)
    (PythonParser : Language.Parser)
    (RuntimeRequestId RawRuntimeRequest RuntimeResponse : Type)
    (languageId content : string) :
  let supported :=
    Language.SUPPORTED_LANGUAGES TYPESCRIPT_LANGUAGE MATHEMATICS_LANGUAGE JSON_LANGUAGE
                                 CSS_LANGUAGE PLAIN_TEXT_LANGUAGE PythonParser in
  let effects : list (@VisualStudioCodeEditor.Effect RuntimeRequestId RawRuntimeRequest
                        RuntimeResponse) :=
    VisualStudioCodeEditor.handleSetDocument
      TYPESCRIPT_LANGUAGE MATHEMATICS_LANGUAGE JSON_LANGUAGE
      CSS_LANGUAGE PLAIN_TEXT_LANGUAGE PythonParser languageId content in
  ((exists language, In language supported /\ Language.id language = languageId) ->
   exists language,
     In language supported /\ Language.id language = languageId
     /\ effects = [VisualStudioCodeEditor.setDocument (Document.mkDocument language content)])
  /\ ((forall language, In language supported -> Language.id language <> languageId) ->
      effects = [VisualStudioCodeEditor.consoleWarn]).
Proof.
  intros supported effects. subst effects.
  unfold VisualStudioCodeEditor.handleSetDocument, Language.getLanguageWithId. fold supported.
  destruct (find (fun language => String.eqb (Language.id language) languageId) supported)
    as [language |] eqn:E.
  - destruct (find_language_sound _ _ _ E) as [Hin Hid]. split.
    + intros _. exists language. repeat split; assumption.
    + intros Hnone. exfalso. exact (Hnone language Hin Hid).
  - split.
    + intros (language & Hin & Hid). exfalso.
      exact (proj1 (find_language_none _ _) E language Hin Hid).
    + intros _. reflexivity.
Qed.

Lemma sampleRequests_distinct :
  NoDup (map VisualStudioCodeEditor.id
             (flat_map VisualStudioCodeEditor.runtimeRequests
                [ VisualStudioCodeEditor.mkMonocle 1
                    [ VisualStudioCodeEditor.mkRuntimeRequest 10%nat "width" "width()";
                      VisualStudioCodeEditor.mkRuntimeRequest 11%nat "height" "height()" ];
                  VisualStudioCodeEditor.mkMonocle 2
                    [ VisualStudioCodeEditor.mkRuntimeRequest 12%nat "depth" "depth()" ] ])).
Proof.
  apply (bool_decide_unpack _). vm_compute. exact I.
Qed.

(** An instance of [remap_runtimeRequests_distinct]: two monocles with
    three requests under three identifiers. *)
Lemma remap_runtimeRequests_distinct_witness :
  VisualStudioCodeEditor.getRuntimeRequests
    (VisualStudioCodeEditor.remapRuntimeRequestIdsToMonoclesAndRequests
       [ VisualStudioCodeEditor.mkMonocle 1
           [ VisualStudioCodeEditor.mkRuntimeRequest 10%nat "width" "width()";
             VisualStudioCodeEditor.mkRuntimeRequest 11%nat "height" "height()" ];
         VisualStudioCodeEditor.mkMonocle 2
           [ VisualStudioCodeEditor.mkRuntimeRequest 12%nat "depth" "depth()" ] ]
       [])
  = flat_map VisualStudioCodeEditor.runtimeRequests
      [ VisualStudioCodeEditor.mkMonocle 1
          [ VisualStudioCodeEditor.mkRuntimeRequest 10%nat "width" "width()";
            VisualStudioCodeEditor.mkRuntimeRequest 11%nat "height" "height()" ];
        VisualStudioCodeEditor.mkMonocle 2
          [ VisualStudioCodeEditor.mkRuntimeRequest 12%nat "depth" "depth()" ] ].
Proof.
  apply remap_runtimeRequests_distinct. exact sampleRequests_distinct.
Defined.

(** ** More on the regex template *)

Section RegexPatternTemplatePasses.

Import RegexPatternTemplate.

Variable Provider : Type.
Variable provideFragmentsWithMatchesForDocument :
  RegexPatternFinder.RegexPatternFinder -> Document -> list FragmentWithMatch.

Implicit Types (store : Store Provider) (this : RegexPatternTemplate Provider).
Implicit Types (l keysToSlots : loc) (document : Document).

Lemma provideSlot_dom_slotMaps keysToSlots (regexMatch : RegexMatch.RegexMatch) document
    store entry :
  keysToSlots ∈ dom (slotMaps store) ->
  dom (slotMaps (provideSlot keysToSlots regexMatch document store entry))
  = dom (slotMaps store).
Proof.
  intros Hl. destruct entry as [key provider]. unfold provideSlot.
  destruct (findMatchingRegexGroup regexMatch key); [| reflexivity].
  simpl. apply dom_insert_lookup_L. apply elem_of_dom. exact Hl.
Qed.

Lemma innerLoop_dom_slotMaps keysToSlots (regexMatch : RegexMatch.RegexMatch) document
    (entries : list (TemplateSlotKey * Provider)) store :
  keysToSlots ∈ dom (slotMaps store) ->
  dom (slotMaps (fold_left (provideSlot keysToSlots regexMatch document) entries store))
  = dom (slotMaps store).
Proof.
  revert store. induction entries as [| entry entries IH]; intros store Hl; simpl; [reflexivity |].
  rewrite IH.
  - apply provideSlot_dom_slotMaps. exact Hl.
  - rewrite provideSlot_dom_slotMaps by exact Hl. exact Hl.
Qed.

(** Processing a fragment creates one slot map and no other. *)
Lemma provideSlotsOfFragment_dom_slotMaps_eq this document store
    (fragmentWithMatch : FragmentWithMatch) :
  dom (slotMaps (provideSlotsOfFragment this document store fragmentWithMatch))
  = {[fresh (dom (slotMaps store))]} ∪ dom (slotMaps store).
Proof.
  unfold provideSlotsOfFragment. simpl.
  rewrite innerLoop_dom_slotMaps.
  - simpl. apply dom_insert_L.
  - simpl. rewrite dom_insert_L. apply elem_of_union_l, elem_of_singleton. reflexivity.
Qed.

Lemma outerLoop_size_slotMaps this document (found : list FragmentWithMatch) store :
  size (slotMaps (fold_left (provideSlotsOfFragment this document) found store))
  = (size (slotMaps store) + length found)%nat.
Proof.
  revert store. induction found as [| first found IH]; intros store; simpl; [lia |].
  rewrite IH. rewrite <- !size_dom, provideSlotsOfFragment_dom_slotMaps_eq.
  rewrite size_union by (apply disjoint_singleton_l, is_fresh).
  rewrite size_singleton. lia.
Qed.

(** The slot map of a fragment after the outer loop, started on a cleared
    mapping: the slots provided for the last match that came with the
    fragment. *)
Lemma outerLoop_slotsOfFragment this document (found : list FragmentWithMatch) store
    (fragment' : TextualFragment) :
  slotsOfFragment this
    (fold_left (provideSlotsOfFragment this document) found
       (fragmentMapClear (fragmentsToKeysToSlots this) store))
    fragment'
  = option_map
      (fun entry => slotsProvided (match_ entry) document (slotSpecification this) ∅)
      (find (fun entry =>
               Nat.eqb (TextualFragment.identity (fragment entry))
                       (TextualFragment.identity fragment'))
            (rev found)).
Proof.
  induction found as [| last found IH] using rev_ind.
  - simpl. unfold slotsOfFragment. rewrite fragmentMapAt_clear, lookup_empty. reflexivity.
  - rewrite fold_left_app, rev_app_distr. simpl.
    set (before := fold_left (provideSlotsOfFragment this document) found
                     (fragmentMapClear (fragmentsToKeysToSlots this) store)) in *.
    unfold slotsOfFragment. rewrite provideSlotsOfFragment_fragmentMapAt, lookup_insert.
    destruct (decide (TextualFragment.identity (fragment last)
                      = TextualFragment.identity fragment')) as [Heq | Hne].
    + rewrite (proj2 (Nat.eqb_eq _ _) Heq). simpl.
      unfold slotMapAt. rewrite provideSlotsOfFragment_slotMaps_new. reflexivity.
    + rewrite (proj2 (Nat.eqb_neq _ _) Hne). rewrite <- IH. unfold slotsOfFragment.
      destruct (fragmentMapAt before (fragmentsToKeysToSlots this)
                  !! TextualFragment.identity fragment') as [keysToSlots |] eqn:E;
        [| reflexivity].
      f_equal. unfold slotMapAt. rewrite provideSlotsOfFragment_slotMaps_old; [reflexivity |].
      apply outerLoop_values_allocated in E as [E | E]; [| exact E].
      rewrite fragmentMapAt_clear, lookup_empty in E. discriminate.
Qed.

Lemma slotsProvided_declared (regexMatch : RegexMatch.RegexMatch) document
    (entries declared : list (TemplateSlotKey * Provider))
    (slots : gmap TemplateSlotKey (TextualTemplateSlot Provider)) :
  (forall entry, In entry entries -> In entry declared) ->
  (forall slotKey slot, slots !! slotKey = Some slot ->
     In (slotKey, TextualTemplateSlot.valuatorProvider slot) declared) ->
  forall slotKey slot,
    slotsProvided regexMatch document entries slots !! slotKey = Some slot ->
    In (slotKey, TextualTemplateSlot.valuatorProvider slot) declared.
Proof.
  unfold slotsProvided. revert slots.
  induction entries as [| [key provider] entries IH]; intros slots Hsub Hslots; simpl.
  - exact Hslots.
  - apply IH.
    + intros entry Hin. apply Hsub. right; exact Hin.
    + destruct (findMatchingRegexGroup regexMatch key) as [group |]; [| exact Hslots].
      intros slotKey slot. rewrite lookup_insert.
      destruct (decide (key = slotKey)) as [-> | Hne]; [| apply Hslots].
      intros [= <-]. simpl. apply Hsub. left; reflexivity.
Qed.

End RegexPatternTemplatePasses.

Lemma find_app_first {A : Type} (f : A -> bool) (l1 l2 : list A) :
  (forall x, In x l1 -> f x = false) ->
  find f (l1 ++ l2) = find f l2.
Proof.
  induction l1 as [| a l1 IH]; simpl; intros Hnone; [reflexivity |].
  rewrite (Hnone a) by (left; reflexivity). apply IH. intros x Hx. apply Hnone. right; exact Hx.
Qed.

(** The slots of a fragment after a pass do not depend on the store in which
    the pass started: for the list of fragments and matches that the finder
    returns, the slots of every fragment are the same whatever the mapping and
    the slot maps held before the pass. *)
Theorem provideFragmentsForDocument_store_independent
    (Provider : Type)
    (provideFragmentsWithMatchesForDocument :
       RegexPatternFinder.RegexPatternFinder -> Document ->
       list RegexPatternTemplate.FragmentWithMatch)
    (this : RegexPatternTemplate.RegexPatternTemplate Provider)
    (document : Document) (store store' : RegexPatternTemplate.Store Provider)
    (fragment : TextualFragment) :
  RegexPatternTemplate.slotsOfFragment this
    (snd (RegexPatternTemplate.provideFragmentsForDocument
            provideFragmentsWithMatchesForDocument this document store))
    fragment
  = RegexPatternTemplate.slotsOfFragment this
      (snd (RegexPatternTemplate.provideFragmentsForDocument
              provideFragmentsWithMatchesForDocument this document store'))
      fragment.
Proof.
  unfold RegexPatternTemplate.provideFragmentsForDocument. simpl.
  rewrite !outerLoop_slotsOfFragment. reflexivity.
Qed.

(** When the finder returns the same fragment object with several matches,
    the slots of the fragment after the pass are those of the last of these
    matches: a slot key is present exactly when it is declared and a group of
    that last match bears its name. *)
Theorem provideFragmentsForDocument_last_match
    (Provider : Type)
    (provideFragmentsWithMatchesForDocument :
       RegexPatternFinder.RegexPatternFinder -> Document ->
       list RegexPatternTemplate.FragmentWithMatch)
    (this : RegexPatternTemplate.RegexPatternTemplate Provider)
    (document : Document) (store : RegexPatternTemplate.Store Provider)
    (before after : list RegexPatternTemplate.FragmentWithMatch)
    (entry : RegexPatternTemplate.FragmentWithMatch) :
  provideFragmentsWithMatchesForDocument (RegexPatternTemplate.regexPatternFinder this) document
    = before ++ entry :: after ->
  (forall later, In later after ->
     TextualFragment.identity (RegexPatternTemplate.fragment later)
     <> TextualFragment.identity (RegexPatternTemplate.fragment entry)) ->
  exists slots,
    RegexPatternTemplate.slotsOfFragment this
      (snd (RegexPatternTemplate.provideFragmentsForDocument
              provideFragmentsWithMatchesForDocument this document store))
      (RegexPatternTemplate.fragment entry) = Some slots
    /\ (forall slotKey : string,
          is_Some (slots !! slotKey) <->
          (In slotKey (map fst (RegexPatternTemplate.slotSpecification this))
           /\ exists group,
               In group (RegexMatch.groups (RegexPatternTemplate.match_ entry))
               /\ RegexGroup.name group = slotKey)).
Proof.
  intros Hfound Hlast.
  unfold RegexPatternTemplate.provideFragmentsForDocument. simpl.
  rewrite outerLoop_slotsOfFragment, Hfound.
  rewrite rev_app_distr. simpl. rewrite <- app_assoc. simpl.
  rewrite find_app_first.
  - simpl. rewrite Nat.eqb_refl. simpl. eexists. split; [reflexivity |].
    intros slotKey. rewrite slotsProvided_is_Some.
    rewrite lookup_empty, is_Some_alt, findMatchingRegexGroup_is_Some. tauto.
  - intros later Hin. apply Nat.eqb_neq. apply Hlast. apply in_rev. exact Hin.
Qed.

(** An instance of [provideFragmentsForDocument_last_match]: the fragment
    of the width comes twice, first with a group [num], then with a group
    [unit]. *)
Lemma provideFragmentsForDocument_last_match_witness :
  exists slots,
    RegexPatternTemplate.slotsOfFragment PixelLengths.template
      (snd (RegexPatternTemplate.provideFragmentsForDocument
              MoreSamples.sameFragmentTwice PixelLengths.template PixelLengths.styleSheet
              PixelLengths.storeAtCreation))
      (RegexPatternTemplate.fragment MoreSamples.widthUnitMatch) = Some slots
    /\ (forall slotKey : string,
          is_Some (slots !! slotKey) <->
          (In slotKey (map fst (RegexPatternTemplate.slotSpecification PixelLengths.template))
           /\ exists group,
               In group (RegexMatch.groups
                           (RegexPatternTemplate.match_ MoreSamples.widthUnitMatch))
               /\ RegexGroup.name group = slotKey)).
Proof.
  apply (provideFragmentsForDocument_last_match PixelLengths.ValuatorProvider
           MoreSamples.sameFragmentTwice PixelLengths.template PixelLengths.styleSheet
           PixelLengths.storeAtCreation [PixelLengths.widthMatch] []
           MoreSamples.widthUnitMatch).
  - reflexivity.
  - intros later [].
Defined.

(** Every slot that a pass makes carries a valuator provider that the slot
    specification declares for the key of the slot. *)
Theorem provideFragmentsForDocument_declared_provider
    (Provider : Type)
    (provideFragmentsWithMatchesForDocument :
       RegexPatternFinder.RegexPatternFinder -> Document ->
       list RegexPatternTemplate.FragmentWithMatch)
    (this : RegexPatternTemplate.RegexPatternTemplate Provider)
    (document : Document) (store : RegexPatternTemplate.Store Provider)
    (fragment : TextualFragment)
    (slots : gmap string (TextualTemplateSlot Provider))
    (slotKey : string) (slot : TextualTemplateSlot Provider) :
  RegexPatternTemplate.slotsOfFragment this
    (snd (RegexPatternTemplate.provideFragmentsForDocument
            provideFragmentsWithMatchesForDocument this document store))
    fragment = Some slots ->
  slots !! slotKey = Some slot ->
  In (slotKey, TextualTemplateSlot.valuatorProvider slot)
     (RegexPatternTemplate.slotSpecification this).
Proof.
  unfold RegexPatternTemplate.provideFragmentsForDocument. simpl.
  rewrite outerLoop_slotsOfFragment.
  destruct (find _ _) as [entry |]; simpl; [| discriminate].
  intros [= <-]. apply slotsProvided_declared; [auto |].
  intros key slot'. rewrite lookup_empty. discriminate.
Qed.

(** An instance of [provideFragmentsForDocument_declared_provider]: the
    slot [num] of the width, with the numeric valuator provider. *)
Lemma provideFragmentsForDocument_declared_provider_witness :
  In ("num", TextualTemplateSlot.valuatorProvider MoreSamples.widthSlot)
     (RegexPatternTemplate.slotSpecification PixelLengths.template).
Proof.
  apply (provideFragmentsForDocument_declared_provider PixelLengths.ValuatorProvider
           PixelLengths.pixelLengthsIn PixelLengths.template PixelLengths.styleSheet
           PixelLengths.storeAtCreation
           (RegexPatternTemplate.fragment PixelLengths.widthMatch)
           (<["num" := MoreSamples.widthSlot]> ∅)).
  - vm_compute. reflexivity.
  - vm_compute. reflexivity.
Defined.

(** A pass creates exactly one slot map for each element of the list it
    returns, and removes none: the slot maps of earlier passes stay in the
    store. *)
Theorem provideFragmentsForDocument_allocates
    (Provider : Type)
    (provideFragmentsWithMatchesForDocument :
       RegexPatternFinder.RegexPatternFinder -> Document ->
       list RegexPatternTemplate.FragmentWithMatch)
    (this : RegexPatternTemplate.RegexPatternTemplate Provider)
    (document : Document) (store : RegexPatternTemplate.Store Provider) :
  let result :=
    RegexPatternTemplate.provideFragmentsForDocument
      provideFragmentsWithMatchesForDocument this document store in
  size (RegexPatternTemplate.slotMaps (snd result))
  = (size (RegexPatternTemplate.slotMaps store) + length (fst result))%nat
  /\ dom (RegexPatternTemplate.slotMaps store) ⊆ dom (RegexPatternTemplate.slotMaps (snd result)).
Proof.
  intros result. subst result.
  unfold RegexPatternTemplate.provideFragmentsForDocument. simpl. split.
  - rewrite outerLoop_size_slotMaps. simpl. rewrite length_map. reflexivity.
  - exact (outerLoop_dom_slotMaps Provider this document _
             (RegexPatternTemplate.fragmentMapClear
                (RegexPatternTemplate.fragmentsToKeysToSlots this) store)).
Qed.

(** A pass of a template leaves the slots of every fragment of another
    template as they were, when the two templates have mappings of their own
    and the slot maps that the other mapping refers to are in the store. *)
Theorem provideFragmentsForDocument_other_template
    (Provider : Type)
    (provideFragmentsWithMatchesForDocument :
       RegexPatternFinder.RegexPatternFinder -> Document ->
       list RegexPatternTemplate.FragmentWithMatch)
    (this other : RegexPatternTemplate.RegexPatternTemplate Provider)
    (document : Document) (store : RegexPatternTemplate.Store Provider)
    (fragment : TextualFragment) :
  RegexPatternTemplate.fragmentsToKeysToSlots other
    <> RegexPatternTemplate.fragmentsToKeysToSlots this ->
  (forall (identity : nat) keysToSlots,
      RegexPatternTemplate.fragmentMapAt store
        (RegexPatternTemplate.fragmentsToKeysToSlots other) !! identity = Some keysToSlots ->
      keysToSlots ∈ dom (RegexPatternTemplate.slotMaps store)) ->
  RegexPatternTemplate.slotsOfFragment other
    (snd (RegexPatternTemplate.provideFragmentsForDocument
            provideFragmentsWithMatchesForDocument this document store))
    fragment
  = RegexPatternTemplate.slotsOfFragment other store fragment.
Proof.
  intros Hne Hallocated.
  unfold RegexPatternTemplate.provideFragmentsForDocument. simpl.
  set (cleared := RegexPatternTemplate.fragmentMapClear
                    (RegexPatternTemplate.fragmentsToKeysToSlots this) store).
  unfold RegexPatternTemplate.slotsOfFragment.
  assert (Hmapping :
            RegexPatternTemplate.fragmentMapAt
              (fold_left (RegexPatternTemplate.provideSlotsOfFragment this document)
                 (provideFragmentsWithMatchesForDocument
                    (RegexPatternTemplate.regexPatternFinder this) document) cleared)
              (RegexPatternTemplate.fragmentsToKeysToSlots other)
            = RegexPatternTemplate.fragmentMapAt store
                (RegexPatternTemplate.fragmentsToKeysToSlots other)).
  { unfold RegexPatternTemplate.fragmentMapAt.
    rewrite outerLoop_fragmentMaps_other by exact Hne.
    unfold cleared. simpl. rewrite lookup_insert_ne by congruence. reflexivity. }
  rewrite Hmapping.
  destruct (RegexPatternTemplate.fragmentMapAt store
              (RegexPatternTemplate.fragmentsToKeysToSlots other)
              !! TextualFragment.identity fragment) as [keysToSlots |] eqn:E;
    [| reflexivity].
  f_equal. unfold RegexPatternTemplate.slotMapAt.
  rewrite outerLoop_slotMaps_old; [reflexivity |].
  exact (Hallocated _ _ E).
Qed.

Lemma storeWithTwoTemplates_allocated :
  map_Forall
    (fun (_ : nat) keysToSlots =>
       keysToSlots ∈ dom (RegexPatternTemplate.slotMaps MoreSamples.storeWithTwoTemplates))
    (RegexPatternTemplate.fragmentMapAt MoreSamples.storeWithTwoTemplates
       (RegexPatternTemplate.fragmentsToKeysToSlots PixelLengths.template)).
Proof.
  apply (bool_decide_unpack _). vm_compute. exact I.
Qed.

(** An instance of [provideFragmentsForDocument_other_template]: a pass of
    the second template, and the slots of the width in the first one. *)
Lemma provideFragmentsForDocument_other_template_witness :
  RegexPatternTemplate.slotsOfFragment PixelLengths.template
    (snd (RegexPatternTemplate.provideFragmentsForDocument
            PixelLengths.pixelLengthsIn MoreSamples.secondTemplate PixelLengths.styleSheet
            MoreSamples.storeWithTwoTemplates))
    (RegexPatternTemplate.fragment PixelLengths.widthMatch)
  = RegexPatternTemplate.slotsOfFragment PixelLengths.template
      MoreSamples.storeWithTwoTemplates
      (RegexPatternTemplate.fragment PixelLengths.widthMatch).
Proof.
  apply (provideFragmentsForDocument_other_template PixelLengths.ValuatorProvider
           PixelLengths.pixelLengthsIn MoreSamples.secondTemplate PixelLengths.template
           PixelLengths.styleSheet MoreSamples.storeWithTwoTemplates).
  - vm_compute. discriminate.
  - exact storeWithTwoTemplates_allocated.
Defined.

(** ** More on the language registry, the textual finder and ranges *)

Lemma NoDup_map_In_eq {A B : Type} (f : A -> B) (l : list A) (a b : A) :
  NoDup (map f l) -> In a l -> In b l -> f a = f b -> a = b.
Proof.
  induction l as [| x l IH]; simpl; [tauto |].
  intros Hnodup Ha Hb Heq. apply NoDup_cons in Hnodup as [Hx Hnodup].
  destruct Ha as [-> | Ha], Hb as [-> | Hb].
  - reflexivity.
  - exfalso. apply Hx. rewrite Heq. apply list_elem_of_In, in_map. exact Hb.
  - exfalso. apply Hx. rewrite <- Heq. apply list_elem_of_In, in_map. exact Ha.
  - apply IH; assumption.
Qed.

(** Every supported language is found under its own identifier: the lookup
    returns a supported language with that identifier, and the language
    itself when the identifiers of the supported languages are pairwise
    distinct. *)
Theorem getLanguageWithId_finds_supported
    (TYPESCRIPT_LANGUAGE MATHEMATICS_LANGUAGE JSON_LANGUAGE
     CSS_LANGUAGE PLAIN_TEXT_LANGUAGE : Language)
    (PythonParser : Language.Parser) (language : Language) :
  let supported :=
    Language.SUPPORTED_LANGUAGES TYPESCRIPT_LANGUAGE MATHEMATICS_LANGUAGE JSON_LANGUAGE
                                 CSS_LANGUAGE PLAIN_TEXT_LANGUAGE PythonParser in
  In language supported ->
  exists found,
    Language.getLanguageWithId TYPESCRIPT_LANGUAGE MATHEMATICS_LANGUAGE JSON_LANGUAGE
                               CSS_LANGUAGE PLAIN_TEXT_LANGUAGE PythonParser
                               (Language.id language)
    = Some found
    /\ In found supported
    /\ Language.id found = Language.id language
    /\ (NoDup (map Language.id supported) -> found = language).
Proof.
  intros supported Hin. unfold Language.getLanguageWithId. fold supported.
  destruct (find (fun candidate => String.eqb (Language.id candidate) (Language.id language))
                 supported) as [found |] eqn:E.
  - destruct (find_language_sound _ _ _ E) as [Hfound Hid].
    exists found. repeat split; try assumption.
    intros Hnodup. apply (NoDup_map_In_eq Language.id supported); assumption.
  - exfalso. exact (proj1 (find_language_none _ _) E language Hin eq_refl).
Qed.

(** An instance of [getLanguageWithId_finds_supported]: the Python
    language, in a registry whose other languages are all the style sheet
    language. *)
Lemma getLanguageWithId_finds_supported_witness :
  exists found,
    Language.getLanguageWithId PixelLengths.CSS_LANGUAGE PixelLengths.CSS_LANGUAGE
      PixelLengths.CSS_LANGUAGE PixelLengths.CSS_LANGUAGE PixelLengths.CSS_LANGUAGE
      MoreSamples.constantParser
      (Language.id (Language.PYTHON_LANGUAGE MoreSamples.constantParser))
    = Some found
    /\ In found
         (Language.SUPPORTED_LANGUAGES PixelLengths.CSS_LANGUAGE PixelLengths.CSS_LANGUAGE
            PixelLengths.CSS_LANGUAGE PixelLengths.CSS_LANGUAGE PixelLengths.CSS_LANGUAGE
            MoreSamples.constantParser)
    /\ Language.id found = Language.id (Language.PYTHON_LANGUAGE MoreSamples.constantParser)
    /\ (NoDup (map Language.id
                   (Language.SUPPORTED_LANGUAGES PixelLengths.CSS_LANGUAGE
                      PixelLengths.CSS_LANGUAGE PixelLengths.CSS_LANGUAGE
                      PixelLengths.CSS_LANGUAGE PixelLengths.CSS_LANGUAGE
                      MoreSamples.constantParser)) ->
        found = Language.PYTHON_LANGUAGE MoreSamples.constantParser).
Proof.
  apply (getLanguageWithId_finds_supported PixelLengths.CSS_LANGUAGE PixelLengths.CSS_LANGUAGE
           PixelLengths.CSS_LANGUAGE PixelLengths.CSS_LANGUAGE PixelLengths.CSS_LANGUAGE
           MoreSamples.constantParser (Language.PYTHON_LANGUAGE MoreSamples.constantParser)).
  simpl. tauto.
Defined.

(** On a document that is not empty, [applyInDocument] invokes the matcher
    exactly once, on the whole content of the document, and returns one
    pattern for each match, in the order of the matches. *)
Theorem applyInDocument_invokes_matcher_once
    (RegexMatch TextualPattern : Type)
    (matchAll : RegexPatternFinder.RegexMatcher -> string -> list RegexMatch)
    (fromRegexMatch : RegexMatch -> Document -> TextualPattern)
    (this : RegexPatternFinder.RegexPatternFinder)
    (document : Document) (trace : list string) :
  Document.content document <> "" ->
  let result :=
    RegexPatternFinder.applyInDocument RegexMatch TextualPattern matchAll fromRegexMatch
      this document trace in
  snd result = trace ++ [Document.content document]
  /\ fst result
     = map (fun found => fromRegexMatch found document)
           (matchAll (RegexPatternFinder.regexMatcher this) (Document.content document))
  /\ length (fst result)
     = length (matchAll (RegexPatternFinder.regexMatcher this) (Document.content document)).
Proof.
  intros Hne result. subst result.
  unfold RegexPatternFinder.applyInDocument.
  destruct (Document.isEmpty document) eqn:E.
  - apply isEmpty_content in E. contradiction.
  - simpl. repeat split. apply length_map.
Qed.

(** An instance of [applyInDocument_invokes_matcher_once]: the style
    sheet, and a matcher that reports the lengths of two matches. *)
Lemma applyInDocument_invokes_matcher_once_witness :
  snd (RegexPatternFinder.applyInDocument nat nat (fun _ _ => [4%nat; 4%nat]) (fun m _ => m)
         (RegexPatternFinder.new "(?<num>\d+)px") PixelLengths.styleSheet [])
  = [] ++ [Document.content PixelLengths.styleSheet]
  /\ fst (RegexPatternFinder.applyInDocument nat nat (fun _ _ => [4%nat; 4%nat]) (fun m _ => m)
            (RegexPatternFinder.new "(?<num>\d+)px") PixelLengths.styleSheet [])
     = map (fun found => found)
           ((fun _ _ => [4%nat; 4%nat])
              (RegexPatternFinder.regexMatcher (RegexPatternFinder.new "(?<num>\d+)px"))
              (Document.content PixelLengths.styleSheet))
  /\ length (fst (RegexPatternFinder.applyInDocument nat nat (fun _ _ => [4%nat; 4%nat])
                    (fun m _ => m)
                    (RegexPatternFinder.new "(?<num>\d+)px") PixelLengths.styleSheet []))
     = length ((fun _ _ => [4%nat; 4%nat])
                 (RegexPatternFinder.regexMatcher (RegexPatternFinder.new "(?<num>\d+)px"))
                 (Document.content PixelLengths.styleSheet)).
Proof.
  apply (applyInDocument_invokes_matcher_once nat nat (fun _ _ => [4%nat; 4%nat])
           (fun m _ => m) (RegexPatternFinder.new "(?<num>\d+)px") PixelLengths.styleSheet []).
  discriminate.
Defined.

(** [relativeTo] keeps an empty range empty, whatever the origin and
    however positions are made relative. *)
Theorem relativeTo_isEmpty
    (positionRelativeTo : Position -> Position -> Position)
    (r : Range) (origin : Position) :
  Range.isEmpty r = true ->
  Range.isEmpty (Range.relativeTo positionRelativeTo r origin) = true.
Proof.
  unfold Range.isEmpty, Range.relativeTo. simpl.
  intros Hempty%isEqualTo_spec. rewrite Hempty. apply isEqualTo_spec. reflexivity.
Qed.

(** An instance of [relativeTo_isEmpty]: an empty range on the third row,
    relative to the start of that row. *)
Lemma relativeTo_isEmpty_witness :
  Range.isEmpty
    (Range.relativeTo MoreSamples.shiftedBy
       (Range.fromSinglePosition (Position.mkPosition 2 5)) (Position.mkPosition 2 0))
  = true.
Proof.
  apply (relativeTo_isEmpty MoreSamples.shiftedBy
           (Range.fromSinglePosition (Position.mkPosition 2 5)) (Position.mkPosition 2 0)).
  reflexivity.
Defined.

(** A range built from two offsets in a text is empty exactly when the
    converter of the text sends both offsets to the same position; the range
    built from an offset and itself is empty. *)
Theorem fromOffsetsInText_isEmpty
    (getOffsetToPositionConverterForText : string -> nat -> Position)
    (text : string) (startOffset endOffset : nat) :
  (Range.isEmpty
     (Range.fromOffsetsInText getOffsetToPositionConverterForText text startOffset endOffset)
   = true
   <-> getOffsetToPositionConverterForText text startOffset
       = getOffsetToPositionConverterForText text endOffset)
  /\ Range.isEmpty
       (Range.fromOffsetsInText getOffsetToPositionConverterForText text startOffset startOffset)
     = true.
Proof.
  unfold Range.isEmpty, Range.fromOffsetsInText. simpl. split.
  - apply isEqualTo_spec.
  - apply isEqualTo_spec. reflexivity.
Qed.
